(** * Gaby interpreter: lexer, parser, value model and tree-walking evaluator

    A shallow embedding of the Go sources of the interpreter, one Rocq module
    per Go package ([lexer], [parser], [object], [stdlib], [evaluator],
    [main]), then the vocabulary of the properties ([props], [run],
    [scope]), then the properties themselves.

    Conventions of the embedding.
    - Go [string] is a byte sequence: Rocq [string] (a list of [ascii]).
    - Go [int64] is a [Z] kept inside the signed 64-bit range by [wrap64];
      Go [float64] is an IEEE-754 binary64 value, [spec_float] at precision 53.
    - Go pointers whose identity the evaluator can observe are addresses
      ([ptr]) handed out by an allocation counter; environments, classes and
      instances live in a store indexed by those addresses.
    - Recursion that Go leaves unbounded (the parser's mutual recursion, the
      evaluator, [mientras] and [para] loops) is bounded by a fuel argument;
      running out of it is the distinguished outcome [OutOfFuel]. *)

From Stdlib Require Import ZArith String Ascii List Lia.
From Stdlib Require Import Floats.SpecFloat.
From stdpp Require Import gmap strings list fin_maps pretty.

Set Warnings "-register-all".
Local Open Scope string_scope.

(* ===================================================================== *)
(** * Package lexer (internal/lexer/token.go)                            *)
(* ===================================================================== *)

Module lexer.

(** [type TokenType string] *)
Definition TokenType : Type := string.

Record Token : Type := mkToken {
  Type_ : TokenType;
  Literal : string;
  Line : nat;
  Column : nat
}.

Definition ILLEGAL : TokenType := "ILLEGAL".
Definition EOF : TokenType := "EOF".
Definition IDENT : TokenType := "IDENT".
Definition NUM : TokenType := "NUM".
Definition STRING : TokenType := "STRING".
Definition ASSIGN : TokenType := "=".
Definition PLUS : TokenType := "+".
Definition MINUS : TokenType := "-".
Definition BANG : TokenType := "!".
Definition ASTERISK : TokenType := "*".
Definition SLASH : TokenType := "/".
Definition MOD : TokenType := "%".
Definition POWER : TokenType := "^".
Definition LT : TokenType := "<".
Definition GT : TokenType := ">".
Definition EQ : TokenType := "==".
Definition NOT_EQ : TokenType := "!=".
Definition PLUS_ASSIGN : TokenType := "+=".
Definition MINUS_ASSIGN : TokenType := "-=".
Definition MUL_ASSIGN : TokenType := "*=".
Definition DIV_ASSIGN : TokenType := "/=".
Definition MOD_ASSIGN : TokenType := "%=".
Definition POW_ASSIGN : TokenType := "^=".
Definition DECLARE : TokenType := ":=".
Definition COMMA : TokenType := ",".
Definition SEMICOLON : TokenType := ";".
Definition COLON : TokenType := ":".
Definition DOT : TokenType := ".".
Definition LPAREN : TokenType := "(".
Definition RPAREN : TokenType := ")".
Definition LBRACE : TokenType := "{".
Definition RBRACE : TokenType := "}".
Definition LBRACKET : TokenType := "[".
Definition RBRACKET : TokenType := "]".
Definition FUNCTION : TokenType := "FUNCTION".
Definition CLASS : TokenType := "CLASS".
Definition PROTO : TokenType := "PROTO".
Definition IF : TokenType := "IF".
Definition ELSE : TokenType := "ELSE".
Definition WHEN : TokenType := "WHEN".
Definition RETURN : TokenType := "RETURN".
Definition TRUE : TokenType := "TRUE".
Definition FALSE : TokenType := "FALSE".
Definition NULL : TokenType := "NULL".
Definition WHILE : TokenType := "WHILE".
Definition FOR : TokenType := "FOR".
Definition REPEAT : TokenType := "REPEAT".
Definition DO : TokenType := "DO".
Definition BREAK : TokenType := "BREAK".
Definition CONTINUE : TokenType := "CONTINUE".
Definition SWITCH : TokenType := "SWITCH".
Definition CASE : TokenType := "CASE".
Definition DEFAULT : TokenType := "DEFAULT".
Definition IN : TokenType := "IN".
Definition FROM : TokenType := "FROM".
Definition TO : TokenType := "TO".
Definition AND : TokenType := "AND".
Definition OR : TokenType := "OR".
Definition NOT : TokenType := "NOT".
Definition IS : TokenType := "IS".
Definition ISNOT : TokenType := "ISNOT".
Definition NEW : TokenType := "NEW".
Definition EXTENDS : TokenType := "EXTENDS".
Definition IMPLEMENTS : TokenType := "IMPLEMENTS".
Definition VAR : TokenType := "VAR".
Definition PUBLIC : TokenType := "PUBLIC".
Definition PRIVATE : TokenType := "PRIVATE".
Definition PROTECTED : TokenType := "PROTECTED".
Definition STATIC : TokenType := "STATIC".
Definition FINAL : TokenType := "FINAL".
Definition THIS : TokenType := "THIS".
Definition SUPER : TokenType := "SUPER".
Definition TRY : TokenType := "TRY".
Definition CATCH : TokenType := "CATCH".
Definition FINALLY : TokenType := "FINALLY".
Definition THROW : TokenType := "THROW".

(** [var keywords = map[string]TokenType{...}] *)
Definition keywords : gmap string TokenType :=
  list_to_map
    [ ("fun", FUNCTION); ("clase", CLASS); ("proto", PROTO); ("si", IF);
      ("sino", ELSE); ("cuando", WHEN); ("devolver", RETURN);
      ("verdad", TRUE); ("falso", FALSE); ("nulo", NULL);
      ("mientras", WHILE); ("para", FOR); ("repetir", REPEAT); ("haz", DO);
      ("romper", BREAK); ("continuar", CONTINUE); ("evaluar", SWITCH);
      ("caso", CASE); ("defecto", DEFAULT); ("en", IN); ("desde", FROM);
      ("hasta", TO); ("y", AND); ("o", OR); ("no", NOT); ("es", IS);
      ("no_es", ISNOT); ("nuevo", NEW); ("extiende", EXTENDS);
      ("implementa", IMPLEMENTS); ("guarda", VAR); ("publico", PUBLIC);
      ("privado", PRIVATE); ("protegido", PROTECTED); ("estatico", STATIC);
      ("final", FINAL); ("esto", THIS); ("super", SUPER); ("intentar", TRY);
      ("atrapar", CATCH); ("finalmente", FINALLY); ("lanzar", THROW) ].

Definition LookupIdent (ident : string) : TokenType :=
  match keywords !! ident with
  | Some tok => tok
  | None => IDENT
  end.

(** ** The scanner *)

Record Lexer : Type := mkLexer {
  input : string;
  position : nat;      (* index of the current character *)
  readPosition : nat;  (* index after the current character *)
  ch : ascii;          (* current byte; NUL past the end *)
  line : nat;
  column : nat
}.

Definition NUL : ascii := Ascii.zero.
Definition LF : ascii := ascii_of_nat 10.
Definition CR : ascii := ascii_of_nat 13.
Definition TAB : ascii := ascii_of_nat 9.
Definition DQUOTE : ascii := ascii_of_nat 34.
Definition SQUOTE : ascii := ascii_of_nat 39.
Definition BACKSLASH : ascii := ascii_of_nat 92.

(** [l.input[i]] for an index already checked to be in range. *)
Definition byteAt (s : string) (i : nat) : ascii :=
  match String.get i s with
  | Some c => c
  | None => NUL
  end.

(** [l.input[from:to]] *)
Definition slice (s : string) (from to : nat) : string :=
  String.substring from (to - from) s.

Definition readChar (l : Lexer) : Lexer :=
  let c := if (String.length (input l) <=? readPosition l)%nat
           then NUL
           else byteAt (input l) (readPosition l) in
  let '(ln, col) := if Ascii.eqb c LF
                    then (S (line l), 0%nat)
                    else (line l, S (column l)) in
  {| input := input l;
     position := readPosition l;
     readPosition := S (readPosition l);
     ch := c;
     line := ln;
     column := col |}.

Definition New (inp : string) : Lexer :=
  readChar {| input := inp; position := 0; readPosition := 0; ch := NUL;
              line := 1; column := 0 |}.

Definition peekChar (l : Lexer) : ascii :=
  if (String.length (input l) <=? readPosition l)%nat
  then NUL
  else byteAt (input l) (readPosition l).

(** [unicode.IsLetter(rune(ch)) || ch == '_']: the byte is widened to a
    rune, so the test is the one of the Latin-1 block. *)
Definition isLetter (c : ascii) : bool :=
  let n := nat_of_ascii c in
  (((65 <=? n) && (n <=? 90)) || ((97 <=? n) && (n <=? 122))
   || (n =? 170) || (n =? 181) || (n =? 186)
   || ((192 <=? n) && (n <=? 214)) || ((216 <=? n) && (n <=? 246))
   || ((248 <=? n) && (n <=? 255))
   || (n =? 95))%nat.

(** [unicode.IsDigit(rune(ch))]: in Latin-1 only the ASCII digits. *)
Definition isDigit (c : ascii) : bool :=
  let n := nat_of_ascii c in ((48 <=? n) && (n <=? 57))%nat.

(** [string(ch)] for a byte: Go converts the integer to the UTF-8 encoding
    of the code point of that number, two bytes from 128 on. *)
Definition runeString (c : ascii) : string :=
  let n := nat_of_ascii c in
  if (n <? 128)%nat then String c EmptyString
  else String (ascii_of_nat (192 + n / 64))
              (String (ascii_of_nat (128 + n mod 64)) EmptyString).

Definition newToken (tokenType : TokenType) (c : ascii) : Token :=
  {| Type_ := tokenType; Literal := runeString c; Line := 0; Column := 0 |}.

(** The scanning loops all advance by [readChar] and stop at the NUL that
    [readChar] yields past the end of the input, so each runs at most
    [length input + 1 - position] times; [n] is that bound. *)

Fixpoint skipWhitespace_loop (n : nat) (l : Lexer) : Lexer :=
  match n with
  | O => l
  | S n' =>
      if Ascii.eqb (ch l) " " || Ascii.eqb (ch l) TAB
         || Ascii.eqb (ch l) LF || Ascii.eqb (ch l) CR
      then skipWhitespace_loop n' (readChar l)
      else l
  end.

Definition bound (l : Lexer) : nat := S (S (String.length (input l)) - position l).

Definition skipWhitespace (l : Lexer) : Lexer := skipWhitespace_loop (bound l) l.

Fixpoint skipLineComment_loop (n : nat) (l : Lexer) : Lexer :=
  match n with
  | O => l
  | S n' =>
      if negb (Ascii.eqb (ch l) LF) && negb (Ascii.eqb (ch l) NUL)
      then skipLineComment_loop n' (readChar l)
      else l
  end.

Definition skipLineComment (l : Lexer) : Lexer := skipLineComment_loop (bound l) l.

Fixpoint skipBlockComment_loop (n : nat) (l : Lexer) : Lexer :=
  match n with
  | O => l
  | S n' =>
      if negb (Ascii.eqb (ch l) "*" && Ascii.eqb (peekChar l) "/")
         && negb (Ascii.eqb (ch l) NUL)
      then skipBlockComment_loop n' (readChar l)
      else l
  end.

Definition skipBlockComment (l : Lexer) : Lexer :=
  let l := readChar (readChar l) in
  let l := skipBlockComment_loop (bound l) l in
  if negb (Ascii.eqb (ch l) NUL) then readChar (readChar l) else l.

Fixpoint readIdentifier_loop (n : nat) (start : nat) (l : Lexer) : Lexer :=
  match n with
  | O => l
  | S n' =>
      if isLetter (ch l) || ((start <? position l)%nat && isDigit (ch l))
         || Ascii.eqb (ch l) "_"
      then readIdentifier_loop n' start (readChar l)
      else l
  end.

Definition readIdentifier (l : Lexer) : string * Lexer :=
  let start := position l in
  let l' := readIdentifier_loop (bound l) start l in
  (slice (input l') start (position l'), l').

Fixpoint readNumber_loop (n : nat) (hasDot : bool) (l : Lexer) : Lexer :=
  match n with
  | O => l
  | S n' =>
      if isDigit (ch l) || (Ascii.eqb (ch l) "." && negb hasDot)
      then readNumber_loop n' (if Ascii.eqb (ch l) "." then true else hasDot)
                           (readChar l)
      else l
  end.

Definition readNumber (l : Lexer) : string * Lexer :=
  let start := position l in
  let l' := readNumber_loop (bound l) false l in
  (slice (input l') start (position l'), l').

Fixpoint readString_loop (n : nat) (quote : ascii) (l : Lexer) : Lexer :=
  match n with
  | O => l
  | S n' =>
      if negb (Ascii.eqb (ch l) quote) && negb (Ascii.eqb (ch l) NUL)
      then
        let l1 := if Ascii.eqb (ch l) BACKSLASH && Ascii.eqb (peekChar l) quote
                  then readChar l else l in
        readString_loop n' quote (readChar l1)
      else l
  end.

Definition readString (quote : ascii) (l : Lexer) : string * Lexer :=
  let l0 := readChar l in
  let start := position l0 in
  let l' := readString_loop (bound l0) quote l0 in
  (slice (input l') start (position l'), l').

(** A one-character operator, or the two-character one when [=] follows. *)
Definition twoChar (l : Lexer) (single double : TokenType) : Token * Lexer :=
  if Ascii.eqb (peekChar l) "="
  then
    let c := ch l in
    let l' := readChar l in
    ({| Type_ := double;
        Literal := runeString c ++ runeString (ch l');
        Line := 0; Column := 0 |}, l')
  else (newToken single (ch l), l).

(** [NextToken]; [n] bounds the restarts after a comment. *)
Fixpoint NextToken_loop (n : nat) (l : Lexer) : Token * Lexer :=
  let l := skipWhitespace l in
  let ln := line l in
  let col := column l in
  let c := ch l in
  let single (t : TokenType) : Token * Lexer := (newToken t c, readChar l) in
  let compound (s d : TokenType) : Token * Lexer :=
    let '(tok, l') := twoChar l s d in (tok, readChar l') in
  if Ascii.eqb c "=" then compound ASSIGN EQ
  else if Ascii.eqb c "+" then compound PLUS PLUS_ASSIGN
  else if Ascii.eqb c "-" then compound MINUS MINUS_ASSIGN
  else if Ascii.eqb c "*" then compound ASTERISK MUL_ASSIGN
  else if Ascii.eqb c "/" then
    if Ascii.eqb (peekChar l) "/" then
      match n with
      | O => ({| Type_ := EOF; Literal := EmptyString; Line := ln; Column := col |}, l)
      | S n' => NextToken_loop n' (skipLineComment l)
      end
    else if Ascii.eqb (peekChar l) "*" then
      match n with
      | O => ({| Type_ := EOF; Literal := EmptyString; Line := ln; Column := col |}, l)
      | S n' => NextToken_loop n' (skipBlockComment l)
      end
    else compound SLASH DIV_ASSIGN
  else if Ascii.eqb c "%" then compound MOD MOD_ASSIGN
  else if Ascii.eqb c "^" then compound POWER POW_ASSIGN
  else if Ascii.eqb c "!" then compound BANG NOT_EQ
  else if Ascii.eqb c "<" then single LT
  else if Ascii.eqb c ">" then single GT
  else if Ascii.eqb c ":" then compound COLON DECLARE
  else if Ascii.eqb c "," then single COMMA
  else if Ascii.eqb c ";" then single SEMICOLON
  else if Ascii.eqb c "." then single DOT
  else if Ascii.eqb c "(" then single LPAREN
  else if Ascii.eqb c ")" then single RPAREN
  else if Ascii.eqb c "{" then single LBRACE
  else if Ascii.eqb c "}" then single RBRACE
  else if Ascii.eqb c "[" then single LBRACKET
  else if Ascii.eqb c "]" then single RBRACKET
  else if Ascii.eqb c DQUOTE || Ascii.eqb c SQUOTE then
    let '(lit, l') := readString c l in
    ({| Type_ := STRING; Literal := lit; Line := ln; Column := col |}, readChar l')
  else if Ascii.eqb c NUL then
    ({| Type_ := EOF; Literal := EmptyString; Line := ln; Column := col |}, readChar l)
  else if isLetter c then
    let '(lit, l') := readIdentifier l in
    ({| Type_ := LookupIdent lit; Literal := lit; Line := ln; Column := col |}, l')
  else if isDigit c then
    let '(lit, l') := readNumber l in
    ({| Type_ := NUM; Literal := lit; Line := ln; Column := col |}, l')
  else single ILLEGAL.

Definition NextToken (l : Lexer) : Token * Lexer := NextToken_loop (bound l) l.

End lexer.

(* ===================================================================== *)
(** * Package parser: the syntax tree and the Pratt parser               *)
(* ===================================================================== *)

Module parser.

(** [float64]: IEEE-754 binary64. *)
Definition float64 : Type := spec_float.
Definition prec : Z := 53.
Definition emax : Z := 1024.

(** ** Syntax tree

    Every Go node struct is a constructor carrying the struct's fields in
    declaration order.  An interface-typed child can be the nil interface
    ([NilExpression], [NilStatement]); a [*LetStatement] can be a nil
    pointer ([LetNil] when stored in a [Statement], [None] in the property
    list of a class); the other pointer fields are those the parser fills
    before it returns the node. *)

Inductive Identifier : Type :=
  mkIdentifier (Token : lexer.Token) (Value : string).

Definition Identifier_Value (i : Identifier) : string :=
  let 'mkIdentifier _ v := i in v.

Inductive Expression : Type :=
| NilExpression
| Ident (i : Identifier)
| IntegerLiteral (Token : lexer.Token) (Value : Z)
| FloatLiteral (Token : lexer.Token) (Value : float64)
| StringLiteral (Token : lexer.Token) (Value : string)
| BooleanLiteral (Token : lexer.Token) (Value : bool)
| NullLiteral (Token : lexer.Token)
| PrefixExpression (Token : lexer.Token) (Operator : string) (Right : Expression)
| InfixExpression (Token : lexer.Token) (Left : Expression) (Operator : string)
                  (Right : Expression)
| IfExpression (Token : lexer.Token) (Condition : Expression)
               (Consequence : BlockStatement) (Alternative : option BlockStatement)
| WhileExpression (Token : lexer.Token) (Condition : Expression) (Body : BlockStatement)
| ForExpression (Token : lexer.Token) (Init : Statement) (Condition : Expression)
                (Update : Statement) (Body : BlockStatement)
| FunctionLit (f : FunctionLiteral)
| CallExpression (Token : lexer.Token) (Function : Expression)
                 (Arguments : list Expression)
| IndexExpression (Token : lexer.Token) (Left : Expression) (Index : Expression)
| ArrayLiteral (Token : lexer.Token) (Elements : list Expression)
| HashLiteral (Token : lexer.Token) (Pairs : list (Expression * Expression))
| DotExpression (Token : lexer.Token) (Object : Expression) (Property : Identifier)
| ClassLiteral (Token : lexer.Token) (Name : Identifier) (Parent : option Identifier)
               (Interfaces : list Identifier)
               (Properties : list (option LetStatement))
               (Methods : list FunctionLiteral)
| NewExpression (Token : lexer.Token) (Class : Expression)
                (Arguments : list Expression)
with Statement : Type :=
| NilStatement
| ExpressionStatement (Token : lexer.Token) (Expression_ : Expression)
| Let (s : LetStatement)
| LetNil
| ReturnStatement (Token : lexer.Token) (ReturnValue : Expression)
| Block (b : BlockStatement)
with BlockStatement : Type :=
| mkBlockStatement (Token : lexer.Token) (Statements : list Statement)
with FunctionLiteral : Type :=
| mkFunctionLiteral (Token : lexer.Token) (Parameters : list Identifier)
                    (Body : BlockStatement) (Name : string)
with LetStatement : Type :=
| mkLetStatement (Token : lexer.Token) (Name : Identifier) (Value : Expression).

(** [type Program struct { Statements []Statement }] *)
Record Program : Type := mkProgram { Statements : list Statement }.

(** [Node]: what [Eval] is handed, a program, a statement or an expression. *)
Inductive Node : Type :=
| NodeProgram (p : Program)
| NodeStatement (s : Statement)
| NodeExpression (e : Expression).

(** ** Where [String()] returns

    The pretty-printer calls [String()] on its children; on a nil interface
    or a nil pointer that call panics.  [Stringable] tells whether printing
    the node returns, following the nil checks the methods make
    ([ExpressionStatement], [LetStatement], [ReturnStatement], the
    alternative of [si] and the three header parts of [para] are checked,
    the other children are not). *)

Fixpoint Stringable (e : Expression) : bool :=
  match e with
  | NilExpression => false
  | Ident _ | IntegerLiteral _ _ | FloatLiteral _ _ | StringLiteral _ _
  | BooleanLiteral _ _ | NullLiteral _ => true
  | PrefixExpression _ _ r => Stringable r
  | InfixExpression _ a _ b => Stringable a && Stringable b
  | IfExpression _ c consequence alt =>
      Stringable c && Block_Stringable consequence
      && match alt with
         | Some a => Block_Stringable a
         | None => true
         end
  | WhileExpression _ c body => Stringable c && Block_Stringable body
  | ForExpression _ init c update body =>
      match init with
      | NilStatement => true
      | _ => Statement_Stringable init
      end
      && match c with
         | NilExpression => true
         | _ => Stringable c
         end
      && match update with
         | NilStatement => true
         | _ => Statement_Stringable update
         end
      && Block_Stringable body
  | FunctionLit f => Function_Stringable f
  | CallExpression _ f args => Stringable f && forallb Stringable args
  | IndexExpression _ a i => Stringable a && Stringable i
  | ArrayLiteral _ elements => forallb Stringable elements
  | HashLiteral _ pairs =>
      forallb (fun kv : Expression * Expression =>
                 let '(k, v) := kv in Stringable k && Stringable v) pairs
  | DotExpression _ o _ => Stringable o
  | ClassLiteral _ _ _ _ props methods =>
      forallb (fun o : option LetStatement =>
                 match o with
                 | Some s => Let_Stringable s
                 | None => false
                 end) props
      && forallb Function_Stringable methods
  | NewExpression _ c args => Stringable c && forallb Stringable args
  end
with Statement_Stringable (s : Statement) : bool :=
  match s with
  | NilStatement => false
  | ExpressionStatement _ e =>
      match e with
      | NilExpression => true
      | _ => Stringable e
      end
  | Let s => Let_Stringable s
  | LetNil => false
  | ReturnStatement _ v =>
      match v with
      | NilExpression => true
      | _ => Stringable v
      end
  | Block b => Block_Stringable b
  end
with Block_Stringable (b : BlockStatement) : bool :=
  match b with
  | mkBlockStatement _ stmts => forallb Statement_Stringable stmts
  end
with Function_Stringable (f : FunctionLiteral) : bool :=
  match f with
  | mkFunctionLiteral _ _ body _ => Block_Stringable body
  end
with Let_Stringable (s : LetStatement) : bool :=
  match s with
  | mkLetStatement _ _ v =>
      match v with
      | NilExpression => true
      | _ => Stringable v
      end
  end.

(** ** Precedences *)

Definition LOWEST : Z := 1.
Definition ASSIGN : Z := 2.
Definition LOGICAL : Z := 3.
Definition EQUALS : Z := 4.
Definition LESSGREATER : Z := 5.
Definition SUM : Z := 6.
Definition PRODUCT : Z := 7.
Definition PREFIX : Z := 8.
Definition CALL : Z := 9.
Definition INDEX : Z := 10.
Definition DOT : Z := 11.

Definition precedences : gmap lexer.TokenType Z :=
  list_to_map
    [ (lexer.ASSIGN, ASSIGN); (lexer.EQ, EQUALS); (lexer.NOT_EQ, EQUALS);
      (lexer.LT, LESSGREATER); (lexer.GT, LESSGREATER); (lexer.PLUS, SUM);
      (lexer.MINUS, SUM); (lexer.SLASH, PRODUCT); (lexer.ASTERISK, PRODUCT);
      (lexer.MOD, PRODUCT); (lexer.POWER, PRODUCT); (lexer.LPAREN, CALL);
      (lexer.LBRACKET, INDEX); (lexer.DOT, DOT); (lexer.AND, LOGICAL);
      (lexer.OR, LOGICAL) ].

(** ** Parser state *)

Record Parser : Type := mkParser {
  l : lexer.Lexer;
  errors : list string;
  curToken : lexer.Token;
  peekToken : lexer.Token
}.

(** The handlers that [New] registers, named after the methods. *)
Inductive prefixParseFn : Type :=
| fn_parseIdentifier | fn_parseNumberLiteral | fn_parseStringLiteral
| fn_parseBooleanLiteral | fn_parseNullLiteral | fn_parsePrefixExpression
| fn_parseGroupedExpression | fn_parseIfExpression | fn_parseFunctionLiteral
| fn_parseArrayLiteral | fn_parseHashLiteral | fn_parseWhileExpression
| fn_parseForExpression | fn_parseClassLiteral | fn_parseNewExpression.

Inductive infixParseFn : Type :=
| fn_parseInfixExpression | fn_parseCallExpression | fn_parseIndexExpression
| fn_parseDotExpression.

Definition prefixParseFns : gmap lexer.TokenType prefixParseFn :=
  list_to_map
    [ (lexer.IDENT, fn_parseIdentifier); (lexer.NUM, fn_parseNumberLiteral);
      (lexer.STRING, fn_parseStringLiteral); (lexer.TRUE, fn_parseBooleanLiteral);
      (lexer.FALSE, fn_parseBooleanLiteral); (lexer.NULL, fn_parseNullLiteral);
      (lexer.BANG, fn_parsePrefixExpression); (lexer.MINUS, fn_parsePrefixExpression);
      (lexer.LPAREN, fn_parseGroupedExpression); (lexer.IF, fn_parseIfExpression);
      (lexer.FUNCTION, fn_parseFunctionLiteral); (lexer.LBRACKET, fn_parseArrayLiteral);
      (lexer.LBRACE, fn_parseHashLiteral); (lexer.WHILE, fn_parseWhileExpression);
      (lexer.FOR, fn_parseForExpression); (lexer.CLASS, fn_parseClassLiteral);
      (lexer.NEW, fn_parseNewExpression) ].

Definition infixParseFns : gmap lexer.TokenType infixParseFn :=
  list_to_map
    [ (lexer.PLUS, fn_parseInfixExpression); (lexer.MINUS, fn_parseInfixExpression);
      (lexer.SLASH, fn_parseInfixExpression); (lexer.ASTERISK, fn_parseInfixExpression);
      (lexer.MOD, fn_parseInfixExpression); (lexer.POWER, fn_parseInfixExpression);
      (lexer.EQ, fn_parseInfixExpression); (lexer.NOT_EQ, fn_parseInfixExpression);
      (lexer.LT, fn_parseInfixExpression); (lexer.GT, fn_parseInfixExpression);
      (lexer.LPAREN, fn_parseCallExpression); (lexer.LBRACKET, fn_parseIndexExpression);
      (lexer.DOT, fn_parseDotExpression); (lexer.AND, fn_parseInfixExpression);
      (lexer.OR, fn_parseInfixExpression) ].

Definition nextToken (p : Parser) : Parser :=
  let '(tok, l') := lexer.NextToken (l p) in
  {| l := l'; errors := errors p; curToken := peekToken p; peekToken := tok |}.

Definition New (lx : lexer.Lexer) : Parser :=
  let zero := lexer.mkToken EmptyString EmptyString 0 0 in
  nextToken (nextToken {| l := lx; errors := []; curToken := zero; peekToken := zero |}).

Definition curTokenIs (p : Parser) (t : lexer.TokenType) : bool :=
  String.eqb (lexer.Type_ (curToken p)) t.

Definition peekTokenIs (p : Parser) (t : lexer.TokenType) : bool :=
  String.eqb (lexer.Type_ (peekToken p)) t.

Definition addError (msg : string) (p : Parser) : Parser :=
  {| l := l p; errors := (errors p ++ [msg])%list;
     curToken := curToken p; peekToken := peekToken p |}.

Definition position_prefix (ln col : nat) : string :=
  "línea " ++ pretty ln ++ ", columna " ++ pretty col ++ ": ".

Definition peekError (t : lexer.TokenType) (p : Parser) : Parser :=
  addError (position_prefix (lexer.Line (peekToken p)) (lexer.Column (peekToken p))
            ++ "se esperaba token " ++ t ++ ", se obtuvo " ++ lexer.Type_ (peekToken p)) p.

Definition noPrefixParseFnError (t : lexer.TokenType) (p : Parser) : Parser :=
  addError (position_prefix (lexer.Line (curToken p)) (lexer.Column (curToken p))
            ++ "no hay función de análisis de prefijo para " ++ t) p.

Definition expectPeek (t : lexer.TokenType) (p : Parser) : bool * Parser :=
  if peekTokenIs p t then (true, nextToken p) else (false, peekError t p).

Definition peekPrecedence (p : Parser) : Z :=
  match precedences !! lexer.Type_ (peekToken p) with
  | Some n => n
  | None => LOWEST
  end.

Definition curPrecedence (p : Parser) : Z :=
  match precedences !! lexer.Type_ (curToken p) with
  | Some n => n
  | None => LOWEST
  end.

(** ** Number literals ([strconv]) *)

Definition digitValue (c : ascii) : Z := Z.of_nat (nat_of_ascii c) - 48.

Fixpoint digitsValue (base : Z) (acc : Z) (s : string) : option Z :=
  match s with
  | EmptyString => Some acc
  | String c s' =>
      if lexer.isDigit c && (digitValue c <? base)%Z
      then digitsValue base (acc * base + digitValue c)%Z s'
      else None
  end.

(** [strconv.ParseInt(s, 0, 64)] on the literals the lexer produces for a
    NUM token without a dot, i.e. runs of decimal digits: a leading [0]
    selects base 8, and a value above [2^63 - 1] is a range error. *)
Definition ParseInt (s : string) : option Z :=
  match s with
  | EmptyString => None
  | String c rest =>
      let r := if Ascii.eqb c "0" then digitsValue 8 0 rest
               else digitsValue 10 0 s in
      match r with
      | Some v => if (v <=? 9223372036854775807)%Z then Some v else None
      | None => None
      end
  end.

Fixpoint splitDot (s : string) : string * option string :=
  match s with
  | EmptyString => (EmptyString, None)
  | String c s' =>
      if Ascii.eqb c "." then (EmptyString, Some s')
      else let '(a, b) := splitDot s' in (String c a, b)
  end.

Definition ContainsDot (s : string) : bool :=
  match splitDot s with
  | (_, Some _) => true
  | _ => false
  end.

(** [strconv.ParseFloat(s, 64)] on the literals the lexer produces for a
    NUM token with a dot, [digits "." digits]: the decimal value rounded to
    the nearest binary64, ties to even; a value that rounds to infinity is
    a range error. *)
Definition ParseFloat (s : string) : option float64 :=
  let '(ip, fp) := splitDot s in
  let fp := match fp with Some f => f | None => EmptyString end in
  match digitsValue 10 0 (ip ++ fp) with
  | None => None
  | Some 0%Z => Some (S754_zero false)
  | Some n =>
      let d := (10 ^ Z.of_nat (String.length fp))%Z in
      let '(mz, ez, lz) := SFdiv_core_binary prec emax n 0 d 0 in
      match binary_round_aux prec emax false mz ez lz with
      | S754_infinity _ => None
      | f => Some f
      end
  end.

(** ** Outcomes of a parsing function *)

Inductive Res (A : Type) : Type :=
| Ok (a : A) (p : Parser)
| Panic (msg : string)
| OutOfFuel.
Arguments Ok {A} a p.
Arguments Panic {A} msg.
Arguments OutOfFuel {A}.

Definition bind {A B : Type} (m : Res A) (k : A -> Parser -> Res B) : Res B :=
  match m with
  | Ok a p => k a p
  | Panic msg => Panic msg
  | OutOfFuel => OutOfFuel
  end.

Notation "'do' x , p <- m ;; k" := (bind m (fun x p => k))
  (at level 10, x name, p name, m at level 99, k at level 200, only parsing).

(** [fmt]'s [%q] on a literal made of digits and dots. *)
Definition quote (s : string) : string :=
  String lexer.DQUOTE (s ++ String lexer.DQUOTE EmptyString).

(** ** The parsing methods

    [parseExpression] and [parseStatement] call each other through the
    handlers; inside this section they are the recursive occurrences, and
    [fuel] bounds the iterations of each [for] loop. *)

Section Methods.

Variable fuel : nat.
Variable parseExpression : Z -> Parser -> Res Expression.
Variable parseStatement : Parser -> Res Statement.

Definition curIdentifier (p : Parser) : Identifier :=
  mkIdentifier (curToken p) (lexer.Literal (curToken p)).

Definition parseIdentifier (p : Parser) : Res Expression :=
  Ok (Ident (curIdentifier p)) p.

Definition parseNumberLiteral (p : Parser) : Res Expression :=
  let tok := curToken p in
  let lit := lexer.Literal tok in
  let fail (what : string) :=
    Ok NilExpression
       (addError (position_prefix (lexer.Line tok) (lexer.Column tok)
                  ++ "no se pudo analizar " ++ quote lit ++ what) p) in
  if ContainsDot lit then
    match ParseFloat lit with
    | None => fail " como número decimal"
    | Some v => Ok (FloatLiteral tok v) p
    end
  else
    match ParseInt lit with
    | None => fail " como entero"
    | Some v => Ok (IntegerLiteral tok v) p
    end.

Definition parseStringLiteral (p : Parser) : Res Expression :=
  Ok (StringLiteral (curToken p) (lexer.Literal (curToken p))) p.

Definition parseBooleanLiteral (p : Parser) : Res Expression :=
  Ok (BooleanLiteral (curToken p) (curTokenIs p lexer.TRUE)) p.

Definition parseNullLiteral (p : Parser) : Res Expression :=
  Ok (NullLiteral (curToken p)) p.

Definition parsePrefixExpression (p : Parser) : Res Expression :=
  let tok := curToken p in
  do right, p <- parseExpression PREFIX (nextToken p) ;;
  Ok (PrefixExpression tok (lexer.Literal tok) right) p.

Definition parseInfixExpression (left : Expression) (p : Parser) : Res Expression :=
  let tok := curToken p in
  let precedence := curPrecedence p in
  do right, p <- parseExpression precedence (nextToken p) ;;
  Ok (InfixExpression tok left (lexer.Literal tok) right) p.

Definition parseGroupedExpression (p : Parser) : Res Expression :=
  do exp, p <- parseExpression LOWEST (nextToken p) ;;
  let '(ok, p) := expectPeek lexer.RPAREN p in
  if ok then Ok exp p else Ok NilExpression p.

Fixpoint parseBlockStatement_loop (n : nat) (acc : list Statement) (p : Parser)
  : Res (list Statement) :=
  if negb (curTokenIs p lexer.RBRACE) && negb (curTokenIs p lexer.EOF) then
    match n with
    | O => OutOfFuel
    | S n' =>
        do stmt, p <- parseStatement p ;;
        let acc' := match stmt with
                    | NilStatement => acc
                    | _ => (acc ++ [stmt])%list
                    end in
        parseBlockStatement_loop n' acc' (nextToken p)
    end
  else Ok acc p.

Definition parseBlockStatement (p : Parser) : Res BlockStatement :=
  let tok := curToken p in
  do stmts, p <- parseBlockStatement_loop fuel [] (nextToken p) ;;
  Ok (mkBlockStatement tok stmts) p.

Definition parseIfExpression (p : Parser) : Res Expression :=
  let tok := curToken p in
  let '(ok, p) := expectPeek lexer.LPAREN p in
  if negb ok then Ok NilExpression p else
  do cond, p <- parseExpression LOWEST (nextToken p) ;;
  let '(ok, p) := expectPeek lexer.RPAREN p in
  if negb ok then Ok NilExpression p else
  let '(ok, p) := expectPeek lexer.LBRACE p in
  if negb ok then Ok NilExpression p else
  do consequence, p <- parseBlockStatement p ;;
  if peekTokenIs p lexer.ELSE then
    let '(ok, p) := expectPeek lexer.LBRACE (nextToken p) in
    if negb ok then Ok NilExpression p else
    do alt, p <- parseBlockStatement p ;;
    Ok (IfExpression tok cond consequence (Some alt)) p
  else Ok (IfExpression tok cond consequence None) p.

Fixpoint parseFunctionParameters_loop (n : nat) (acc : list Identifier) (p : Parser)
  : Res (list Identifier) :=
  if peekTokenIs p lexer.COMMA then
    match n with
    | O => OutOfFuel
    | S n' =>
        let p := nextToken (nextToken p) in
        parseFunctionParameters_loop n' (acc ++ [curIdentifier p])%list p
    end
  else Ok acc p.

(** A nil slice and an empty one are the same list here. *)
Definition parseFunctionParameters (p : Parser) : Res (list Identifier) :=
  if peekTokenIs p lexer.RPAREN then Ok [] (nextToken p) else
  let p := nextToken p in
  do identifiers, p <- parseFunctionParameters_loop fuel [curIdentifier p] p ;;
  let '(ok, p) := expectPeek lexer.RPAREN p in
  if ok then Ok identifiers p else Ok [] p.

Definition parseFunctionLiteral (p : Parser) : Res Expression :=
  let tok := curToken p in
  let '(name, p) := if peekTokenIs p lexer.IDENT
                    then let p := nextToken p in (lexer.Literal (curToken p), p)
                    else (EmptyString, p) in
  let '(ok, p) := expectPeek lexer.LPAREN p in
  if negb ok then Ok NilExpression p else
  do params, p <- parseFunctionParameters p ;;
  let '(ok, p) := expectPeek lexer.LBRACE p in
  if negb ok then Ok NilExpression p else
  do body, p <- parseBlockStatement p ;;
  Ok (FunctionLit (mkFunctionLiteral tok params body name)) p.

Fixpoint parseExpressionList_loop (n : nat) (acc : list Expression) (p : Parser)
  : Res (list Expression) :=
  if peekTokenIs p lexer.COMMA then
    match n with
    | O => OutOfFuel
    | S n' =>
        do e, p <- parseExpression LOWEST (nextToken (nextToken p)) ;;
        parseExpressionList_loop n' (acc ++ [e])%list p
    end
  else Ok acc p.

Definition parseExpressionList (end_ : lexer.TokenType) (p : Parser)
  : Res (list Expression) :=
  if peekTokenIs p end_ then Ok [] (nextToken p) else
  do e, p <- parseExpression LOWEST (nextToken p) ;;
  do list, p <- parseExpressionList_loop fuel [e] p ;;
  let '(ok, p) := expectPeek end_ p in
  if ok then Ok list p else Ok [] p.

Definition parseCallExpression (function : Expression) (p : Parser) : Res Expression :=
  let tok := curToken p in
  do args, p <- parseExpressionList lexer.RPAREN p ;;
  Ok (CallExpression tok function args) p.

Definition parseArrayLiteral (p : Parser) : Res Expression :=
  let tok := curToken p in
  do elements, p <- parseExpressionList lexer.RBRACKET p ;;
  Ok (ArrayLiteral tok elements) p.

Definition parseIndexExpression (left : Expression) (p : Parser) : Res Expression :=
  let tok := curToken p in
  do index, p <- parseExpression LOWEST (nextToken p) ;;
  let '(ok, p) := expectPeek lexer.RBRACKET p in
  if ok then Ok (IndexExpression tok left index) p else Ok NilExpression p.

(** [hash.Pairs[key] = value]: the map is keyed by the node itself, so every
    parsed key is a new entry, except the nil key of a failed parse, which
    is one entry however often it is stored.  The list keeps the entries in
    the order they were first stored; Go iterates them in no fixed order. *)
Fixpoint setPair (key value : Expression) (pairs : list (Expression * Expression))
  : list (Expression * Expression) :=
  match key, pairs with
  | NilExpression, (NilExpression, _) :: rest => (NilExpression, value) :: rest
  | _, kv :: rest => kv :: setPair key value rest
  | _, [] => [(key, value)]
  end.

Definition parseHashPair (p : Parser) : Res (option (Expression * Expression)) :=
  do key, p <- parseExpression LOWEST p ;;
  let '(ok, p) := expectPeek lexer.COLON p in
  if negb ok then Ok None p else
  do value, p <- parseExpression LOWEST (nextToken p) ;;
  Ok (Some (key, value)) p.

Fixpoint parseHashLiteral_loop (n : nat) (pairs : list (Expression * Expression))
    (p : Parser) : Res (option (list (Expression * Expression))) :=
  if peekTokenIs p lexer.COMMA then
    match n with
    | O => OutOfFuel
    | S n' =>
        do kv, p <- parseHashPair (nextToken (nextToken p)) ;;
        match kv with
        | None => Ok None p
        | Some (key, value) => parseHashLiteral_loop n' (setPair key value pairs) p
        end
    end
  else Ok (Some pairs) p.

Definition parseHashLiteral (p : Parser) : Res Expression :=
  let tok := curToken p in
  if peekTokenIs p lexer.RBRACE then Ok (HashLiteral tok []) (nextToken p) else
  do kv, p <- parseHashPair (nextToken p) ;;
  match kv with
  | None => Ok NilExpression p
  | Some (key, value) =>
      do r, p <- parseHashLiteral_loop fuel (setPair key value []) p ;;
      match r with
      | None => Ok NilExpression p
      | Some pairs =>
          let '(ok, p) := expectPeek lexer.RBRACE p in
          if ok then Ok (HashLiteral tok pairs) p else Ok NilExpression p
      end
  end.

Definition parseDotExpression (object : Expression) (p : Parser) : Res Expression :=
  let tok := curToken p in
  let '(ok, p) := expectPeek lexer.IDENT p in
  if ok then Ok (DotExpression tok object (curIdentifier p)) p
  else Ok NilExpression p.

Definition parseWhileExpression (p : Parser) : Res Expression :=
  let tok := curToken p in
  let '(ok, p) := expectPeek lexer.LPAREN p in
  if negb ok then Ok NilExpression p else
  do cond, p <- parseExpression LOWEST (nextToken p) ;;
  let '(ok, p) := expectPeek lexer.RPAREN p in
  if negb ok then Ok NilExpression p else
  let '(ok, p) := expectPeek lexer.LBRACE p in
  if negb ok then Ok NilExpression p else
  do body, p <- parseBlockStatement p ;;
  Ok (WhileExpression tok cond body) p.

(** [if !p.curTokenIs(SEMICOLON) { if !p.expectPeek(SEMICOLON) { return nil } }] *)
Definition expectSemicolon (p : Parser) : bool * Parser :=
  if negb (curTokenIs p lexer.SEMICOLON) then expectPeek lexer.SEMICOLON p
  else (true, p).

Definition parseForExpression (p : Parser) : Res Expression :=
  let tok := curToken p in
  let '(ok, p) := expectPeek lexer.LPAREN p in
  if negb ok then Ok NilExpression p else
  let p := nextToken p in
  do init, p <- (if negb (curTokenIs p lexer.SEMICOLON) then parseStatement p
           else Ok NilStatement p) ;;
  let '(ok, p) := expectSemicolon p in
  if negb ok then Ok NilExpression p else
  let p := nextToken p in
  do cond, p <- (if negb (curTokenIs p lexer.SEMICOLON) then parseExpression LOWEST p
           else Ok NilExpression p) ;;
  let '(ok, p) := expectSemicolon p in
  if negb ok then Ok NilExpression p else
  let p := nextToken p in
  do update, p <- (if negb (curTokenIs p lexer.RPAREN) then parseStatement p
             else Ok NilStatement p) ;;
  let '(ok, p) := expectPeek lexer.RPAREN p in
  if negb ok then Ok NilExpression p else
  let '(ok, p) := expectPeek lexer.LBRACE p in
  if negb ok then Ok NilExpression p else
  do body, p <- parseBlockStatement p ;;
  Ok (ForExpression tok init cond update body) p.

(** The result is the [*LetStatement]; [None] is the nil pointer. *)
Definition parseLetStatement (p : Parser) : Res (option LetStatement) :=
  let tok := curToken p in
  let '(ok, p) := expectPeek lexer.IDENT p in
  if negb ok then Ok None p else
  let name := curIdentifier p in
  let '(ok, p) := expectPeek lexer.ASSIGN p in
  if negb ok then Ok None p else
  do value, p <- parseExpression LOWEST (nextToken p) ;;
  let p := if peekTokenIs p lexer.SEMICOLON then nextToken p else p in
  Ok (Some (mkLetStatement tok name value)) p.

Definition parseReturnStatement (p : Parser) : Res Statement :=
  let tok := curToken p in
  let p := nextToken p in
  if curTokenIs p lexer.SEMICOLON then Ok (ReturnStatement tok NilExpression) p else
  do value, p <- parseExpression LOWEST p ;;
  let p := if peekTokenIs p lexer.SEMICOLON then nextToken p else p in
  Ok (ReturnStatement tok value) p.

Definition parseExpressionStatement (p : Parser) : Res Statement :=
  let tok := curToken p in
  do e, p <- parseExpression LOWEST p ;;
  let p := if peekTokenIs p lexer.SEMICOLON then nextToken p else p in
  Ok (ExpressionStatement tok e) p.

Fixpoint parseInterfaces_loop (n : nat) (acc : list Identifier) (p : Parser)
  : Res (option (list Identifier)) :=
  if peekTokenIs p lexer.COMMA then
    match n with
    | O => OutOfFuel
    | S n' =>
        let '(ok, p) := expectPeek lexer.IDENT (nextToken p) in
        if negb ok then Ok None p
        else parseInterfaces_loop n' (acc ++ [curIdentifier p])%list p
    end
  else Ok (Some acc) p.

(** The body of a class: the type assertion of [parseFunctionLiteral]'s
    result to a function-literal pointer panics when the literal failed to
    parse and the interface is nil. *)
Fixpoint parseClassBody_loop (n : nat) (props : list (option LetStatement))
    (methods : list FunctionLiteral) (p : Parser)
  : Res (list (option LetStatement) * list FunctionLiteral) :=
  if negb (curTokenIs p lexer.RBRACE) && negb (curTokenIs p lexer.EOF) then
    match n with
    | O => OutOfFuel
    | S n' =>
        if curTokenIs p lexer.FUNCTION then
          do e, p <- parseFunctionLiteral p ;;
          match e with
          | FunctionLit method => parseClassBody_loop n' props (methods ++ [method])%list p
          | _ => Panic "interface conversion: interface is nil, not *parser.FunctionLiteral"
          end
        else if curTokenIs p lexer.VAR then
          do property, p <- parseLetStatement p ;;
          parseClassBody_loop n' (props ++ [property])%list methods p
        else parseClassBody_loop n' props methods (nextToken p)
    end
  else Ok (props, methods) p.

Definition parseClassLiteral (p : Parser) : Res Expression :=
  let tok := curToken p in
  let '(ok, p) := expectPeek lexer.IDENT p in
  if negb ok then Ok NilExpression p else
  let name := curIdentifier p in
  do r, p <- (if peekTokenIs p lexer.EXTENDS then
          let '(ok, p) := expectPeek lexer.IDENT (nextToken p) in
          if negb ok then Ok None p else Ok (Some (Some (curIdentifier p))) p
        else Ok (Some None) p) ;;
  match r with
  | None => Ok NilExpression p
  | Some parent =>
      do r, p <- (if peekTokenIs p lexer.IMPLEMENTS then
              let '(ok, p) := expectPeek lexer.IDENT (nextToken p) in
              if negb ok then Ok None p
              else parseInterfaces_loop fuel [curIdentifier p] p
            else Ok (Some []) p) ;;
      match r with
      | None => Ok NilExpression p
      | Some interfaces =>
          let '(ok, p) := expectPeek lexer.LBRACE p in
          if negb ok then Ok NilExpression p else
          do body, p <- parseClassBody_loop fuel [] [] (nextToken p) ;;
          Ok (ClassLiteral tok name parent interfaces (fst body) (snd body)) p
      end
  end.

Definition parseNewExpression (p : Parser) : Res Expression :=
  let tok := curToken p in
  do class, p <- parseExpression LOWEST (nextToken p) ;;
  if peekTokenIs p lexer.LPAREN then
    do args, p <- parseExpressionList lexer.RPAREN (nextToken p) ;;
    Ok (NewExpression tok class args) p
  else Ok (NewExpression tok class []) p.

Definition callPrefix (fn : prefixParseFn) : Parser -> Res Expression :=
  match fn with
  | fn_parseIdentifier => parseIdentifier
  | fn_parseNumberLiteral => parseNumberLiteral
  | fn_parseStringLiteral => parseStringLiteral
  | fn_parseBooleanLiteral => parseBooleanLiteral
  | fn_parseNullLiteral => parseNullLiteral
  | fn_parsePrefixExpression => parsePrefixExpression
  | fn_parseGroupedExpression => parseGroupedExpression
  | fn_parseIfExpression => parseIfExpression
  | fn_parseFunctionLiteral => parseFunctionLiteral
  | fn_parseArrayLiteral => parseArrayLiteral
  | fn_parseHashLiteral => parseHashLiteral
  | fn_parseWhileExpression => parseWhileExpression
  | fn_parseForExpression => parseForExpression
  | fn_parseClassLiteral => parseClassLiteral
  | fn_parseNewExpression => parseNewExpression
  end.

Definition callInfix (fn : infixParseFn) : Expression -> Parser -> Res Expression :=
  match fn with
  | fn_parseInfixExpression => parseInfixExpression
  | fn_parseCallExpression => parseCallExpression
  | fn_parseIndexExpression => parseIndexExpression
  | fn_parseDotExpression => parseDotExpression
  end.

Fixpoint parseExpression_loop (n : nat) (precedence : Z) (leftExp : Expression)
    (p : Parser) : Res Expression :=
  if negb (peekTokenIs p lexer.SEMICOLON) && (precedence <? peekPrecedence p)%Z then
    match infixParseFns !! lexer.Type_ (peekToken p) with
    | None => Ok leftExp p
    | Some infix =>
        match n with
        | O => OutOfFuel
        | S n' =>
            do leftExp', p <- callInfix infix leftExp (nextToken p) ;;
            parseExpression_loop n' precedence leftExp' p
        end
    end
  else Ok leftExp p.

Definition parseExpression_body (precedence : Z) (p : Parser) : Res Expression :=
  match prefixParseFns !! lexer.Type_ (curToken p) with
  | None => Ok NilExpression (noPrefixParseFnError (lexer.Type_ (curToken p)) p)
  | Some prefix =>
      do leftExp, p <- callPrefix prefix p ;;
      parseExpression_loop fuel precedence leftExp p
  end.

Definition parseStatement_body (p : Parser) : Res Statement :=
  if curTokenIs p lexer.VAR then
    do s, p <- parseLetStatement p ;;
    match s with
    | Some s => Ok (Let s) p
    | None => Ok LetNil p
    end
  else if curTokenIs p lexer.RETURN then parseReturnStatement p
  else parseExpressionStatement p.

End Methods.

Fixpoint parseExpression (fuel : nat) : Z -> Parser -> Res Expression :=
  match fuel with
  | O => fun _ _ => OutOfFuel
  | S f => parseExpression_body f (fun prec p => parseExpression f prec p)
                                  (fun p => parseStatement f p)
  end
with parseStatement (fuel : nat) : Parser -> Res Statement :=
  match fuel with
  | O => fun _ => OutOfFuel
  | S f => parseStatement_body (fun prec p => parseExpression f prec p)
  end.

Fixpoint ParseProgram_loop (fuel : nat) (n : nat) (acc : list Statement) (p : Parser)
  : Res Program :=
  if negb (curTokenIs p lexer.EOF) then
    match n with
    | O => OutOfFuel
    | S n' =>
        do stmt, p <- parseStatement fuel p ;;
        let acc' := match stmt with
                    | NilStatement => acc
                    | _ => (acc ++ [stmt])%list
                    end in
        ParseProgram_loop fuel n' acc' (nextToken p)
    end
  else Ok (mkProgram acc) p.

Definition ParseProgram (fuel : nat) (p : Parser) : Res Program :=
  ParseProgram_loop fuel fuel [] p.

(** [Errors] *)
Definition Errors (p : Parser) : list string := errors p.

End parser.

(* ===================================================================== *)
(** * Package object: runtime values and environments                    *)
(* ===================================================================== *)

Module object.

(** An address.  Every Go allocation whose identity matters takes the next
    one from the counter of the state. *)
Definition ptr : Type := nat.

(** [type ObjectType string] *)
Definition ObjectType : Type := string.

Definition INTEGER_OBJ : ObjectType := "ENTERO".
Definition FLOAT_OBJ : ObjectType := "DECIMAL".
Definition BOOLEAN_OBJ : ObjectType := "BOOLEANO".
Definition NULL_OBJ : ObjectType := "NULO".
Definition RETURN_VALUE_OBJ : ObjectType := "RETORNO".
Definition ERROR_OBJ : ObjectType := "ERROR".
Definition FUNCTION_OBJ : ObjectType := "FUNCION".
Definition STRING_OBJ : ObjectType := "TEXTO".
Definition BUILTIN_OBJ : ObjectType := "INCORPORADO".
Definition ARRAY_OBJ : ObjectType := "LISTA".
Definition HASH_OBJ : ObjectType := "MAPA".
Definition CLASS_OBJ : ObjectType := "CLASE".
Definition INSTANCE_OBJ : ObjectType := "INSTANCIA".

(** ** 64-bit integers and floats *)

Definition wrap64 (z : Z) : Z := ((z + 2 ^ 63) mod 2 ^ 64 - 2 ^ 63)%Z.

Definition float64 : Type := parser.float64.
Definition fzero : float64 := S754_zero false.
Definition fone : float64 := S754_finite false 4503599627370496 (-52).
Definition fadd : float64 -> float64 -> float64 := SFadd parser.prec parser.emax.
Definition fsub : float64 -> float64 -> float64 := SFsub parser.prec parser.emax.
Definition fmul : float64 -> float64 -> float64 := SFmul parser.prec parser.emax.
Definition fdiv : float64 -> float64 -> float64 := SFdiv parser.prec parser.emax.

(** [float64(i)] for an [int64]: rounding to nearest, ties to even. *)
Definition float64_of_int64 (i : Z) : float64 :=
  binary_normalize parser.prec parser.emax i 0 false.

(** [int64(f)]: truncation toward zero.  For a NaN, an infinity or a value
    outside the [int64] range Go leaves the result to the implementation:
    [None]. *)
Definition int64_of_float64 (f : float64) : option Z :=
  match f with
  | S754_zero _ => Some 0%Z
  | S754_finite s m e =>
      let a := match e with
               | Z.neg k => (Z.pos m / 2 ^ Z.pos k)%Z
               | _ => (Z.pos m * 2 ^ e)%Z
               end in
      let v := if s then (- a)%Z else a in
      if ((- 2 ^ 63 <=? v) && (v <? 2 ^ 63))%Z then Some v else None
  | _ => None
  end.

(** ** Values

    [Object] is the Go interface value: [Nil] is the nil interface, every
    other constructor a pointer to the struct of that name.  [Boolean],
    [Null], [ReturnValue], [Builtin], [Array], [Hash] and functions carry the
    address [p] of the struct, because the evaluator compares them by
    pointer; classes and instances are mutated after they are allocated and
    live in the state, the value holding their address only.  The identity
    of an [Integer], [Float], [String] or [Error] is never observed. *)

(** A Go function value stored in a [Builtin], named by the function. *)
Inductive BuiltinFunction : Type :=
| evaluator_longitud
| evaluator_mostrar
| stdlib_contiene.

Record Function : Type := mkFunction {
  Function_p : ptr;
  Parameters : list parser.Identifier;
  Body : parser.BlockStatement;
  Env : ptr;
  Name : string
}.

(** [HashKey{Type, Value}] *)
Definition HashKey : Type := (ObjectType * Z)%type.

Inductive Object : Type :=
| Nil
| Integer (Value : Z)
| Float (Value : float64)
| Boolean (p : ptr) (Value : bool)
| Null (p : ptr)
| ReturnValue (p : ptr) (Value : Object)
| Error (Message : string)
| FunctionObj (f : Function)
| String (Value : string)
| Builtin (p : ptr) (Fn : BuiltinFunction)
| Array (p : ptr) (Elements : list Object)
| Hash (p : ptr) (Pairs : list (HashKey * (Object * Object)))
| ClassPtr (p : ptr)
| InstancePtr (p : ptr).

(** [Type()]; on the nil interface the call panics: [None]. *)
Definition Type_ (o : Object) : option ObjectType :=
  match o with
  | Nil => None
  | Integer _ => Some INTEGER_OBJ
  | Float _ => Some FLOAT_OBJ
  | Boolean _ _ => Some BOOLEAN_OBJ
  | Null _ => Some NULL_OBJ
  | ReturnValue _ _ => Some RETURN_VALUE_OBJ
  | Error _ => Some ERROR_OBJ
  | FunctionObj _ => Some FUNCTION_OBJ
  | String _ => Some STRING_OBJ
  | Builtin _ _ => Some BUILTIN_OBJ
  | Array _ _ => Some ARRAY_OBJ
  | Hash _ _ => Some HASH_OBJ
  | ClassPtr _ => Some CLASS_OBJ
  | InstancePtr _ => Some INSTANCE_OBJ
  end.

(** Go's [==] on two interface values holding pointers: same dynamic type
    and same address.  Two [Integer]s, [Float]s, [String]s or [Error]s are
    never compared this way by the evaluator (their operators are chosen
    before), so no address is kept for them. *)
Definition same (a b : Object) : bool :=
  match a, b with
  | Nil, Nil => true
  | Boolean p _, Boolean q _ => (p =? q)%nat
  | Null p, Null q => (p =? q)%nat
  | ReturnValue p _, ReturnValue q _ => (p =? q)%nat
  | FunctionObj f, FunctionObj g => (Function_p f =? Function_p g)%nat
  | Builtin p _, Builtin q _ => (p =? q)%nat
  | Array p _, Array q _ => (p =? q)%nat
  | Hash p _, Hash q _ => (p =? q)%nat
  | ClassPtr p, ClassPtr q => (p =? q)%nat
  | InstancePtr p, InstancePtr q => (p =? q)%nat
  | _, _ => false
  end.

(** ** Hash keys *)

Fixpoint fnv1a (h : Z) (s : string) : Z :=
  match s with
  | EmptyString => h
  | String.String c s' =>
      fnv1a ((Z.lxor h (Z.of_nat (nat_of_ascii c)) * 1099511628211) mod 2 ^ 64)%Z s'
  end.

(** [HashKey()] of the three [Hashable] types; [None] for the others. *)
Definition HashKey_of (o : Object) : option HashKey :=
  match o with
  | Boolean _ b => Some (BOOLEAN_OBJ, if b then 1%Z else 0%Z)
  | Integer i => Some (INTEGER_OBJ, (i mod 2 ^ 64)%Z)
  | String s => Some (STRING_OBJ, fnv1a 14695981039346656037%Z s)
  | _ => None
  end.

Definition HashKey_eqb (a b : HashKey) : bool :=
  String.eqb (fst a) (fst b) && (snd a =? snd b)%Z.

Fixpoint Pairs_lookup (k : HashKey) (pairs : list (HashKey * (Object * Object)))
  : option (Object * Object) :=
  match pairs with
  | [] => None
  | (k', kv) :: rest => if HashKey_eqb k k' then Some kv else Pairs_lookup k rest
  end.

Fixpoint Pairs_insert (k : HashKey) (kv : Object * Object)
    (pairs : list (HashKey * (Object * Object))) : list (HashKey * (Object * Object)) :=
  match pairs with
  | [] => [(k, kv)]
  | (k', kv') :: rest =>
      if HashKey_eqb k k' then (k, kv) :: rest else (k', kv') :: Pairs_insert k kv rest
  end.

(** ** Classes, instances, environments and the state *)

Record Class : Type := mkClass {
  Class_Name : string;
  Class_Properties : gmap string Object;
  Methods : gmap string Function;
  Parent : option ptr
}.

Record Instance : Type := mkInstance {
  Instance_Class : ptr;
  Properties : gmap string Object;
  Instance_Env : ptr
}.

Record Environment : Type := mkEnvironment {
  store : gmap string Object;
  outer : option ptr
}.

(** Everything the interpreter can reach and change: the allocated
    environments, classes and instances, the allocation counter, and the
    values whose [Inspect()] was printed, one per line, oldest first. *)
Record State : Type := mkState {
  envs : gmap ptr Environment;
  classes : gmap ptr Class;
  instances : gmap ptr Instance;
  next : ptr;
  output : list Object
}.

Definition alloc (st : State) : ptr * State :=
  (next st, mkState (envs st) (classes st) (instances st) (S (next st)) (output st)).

Definition set_envs (m : gmap ptr Environment) (st : State) : State :=
  mkState m (classes st) (instances st) (next st) (output st).

Definition set_classes (m : gmap ptr Class) (st : State) : State :=
  mkState (envs st) m (instances st) (next st) (output st).

Definition set_instances (m : gmap ptr Instance) (st : State) : State :=
  mkState (envs st) (classes st) m (next st) (output st).

Definition print (o : Object) (st : State) : State :=
  mkState (envs st) (classes st) (instances st) (next st) (output st ++ [o])%list.

(** [NewEnvironment] and [NewEnclosedEnvironment] *)
Definition NewEnvironment (st : State) : ptr * State :=
  let '(e, st) := alloc st in
  (e, set_envs (<[e := mkEnvironment ∅ None]> (envs st)) st).

Definition NewEnclosedEnvironment (outer_ : ptr) (st : State) : ptr * State :=
  let '(e, st) := alloc st in
  (e, set_envs (<[e := mkEnvironment ∅ (Some outer_)]> (envs st)) st).

(** [Get]: the pair [(obj, ok)] is [Some obj] when [ok].  An enclosing
    environment is older than the one it encloses, so the walk outward from
    [e] takes at most [e + 1] steps. *)
Fixpoint Get_walk (n : nat) (m : gmap ptr Environment) (e : ptr) (name : string)
  : option Object :=
  match n with
  | O => None
  | S n' =>
      match m !! e with
      | None => None
      | Some E =>
          match store E !! name with
          | Some obj => Some obj
          | None =>
              match outer E with
              | Some o => Get_walk n' m o name
              | None => None
              end
          end
      end
  end.

Definition Get (e : ptr) (name : string) (st : State) : option Object :=
  Get_walk (S e) (envs st) e name.

(** [Set]: writes the innermost store only. *)
Definition Set_ (e : ptr) (name : string) (val : Object) (st : State) : State :=
  set_envs (alter (fun E => mkEnvironment (<[name := val]> (store E)) (outer E)) e (envs st)) st.

(** ** Outcomes

    A Go call returns, panics, depends on what the implementation does with
    an unrepresentable conversion, or (in this embedding) runs out of fuel.
    A function that touches the state is a state transformer [M]. *)

Inductive Failure : Type :=
| Panic (msg : string)
| ImplDependent
| OutOfFuel.

Inductive Result (A : Type) : Type :=
| Val (a : A)
| Fail (f : Failure).
Arguments Val {A} a.
Arguments Fail {A} f.

Definition M (A : Type) : Type := State -> Result (A * State).

Definition ret {A : Type} (a : A) : M A := fun st => Val (a, st).

Definition bind {A B : Type} (m : M A) (k : A -> M B) : M B :=
  fun st =>
    match m st with
    | Val (a, st') => k a st'
    | Fail f => Fail f
    end.

Definition lift {A : Type} (r : Result A) : M A :=
  fun st =>
    match r with
    | Val a => Val (a, st)
    | Fail f => Fail f
    end.

(** A state change that yields nothing. *)
Definition modify (f : State -> State) : M unit := fun st => Val (tt, f st).

(** A step that yields a value and a new state, such as an allocation. *)
Definition step {A : Type} (f : State -> A * State) : M A := fun st => Val (f st).

Definition nilDeref {A : Type} : Result A :=
  Fail (Panic "invalid memory address or nil pointer dereference").

(** [obj.Type()] inside a message. *)
Definition typeName (obj : Object) : Result string :=
  match Type_ obj with
  | Some t => Val t
  | None => nilDeref
  end.

End object.

(* ===================================================================== *)
(** * Package stdlib: built-in functions                                 *)
(* ===================================================================== *)

Module stdlib.
Import object.

(** The package's own singletons, distinct allocations from the
    evaluator's. *)
Definition TRUE : Object := Boolean 5 true.
Definition FALSE : Object := Boolean 6 false.
Definition NULL : Object := Null 7.

Definition newError (msg : string) : Object := Error msg.

(** [strings.Contains] *)
Fixpoint Contains (s substr : string) : bool :=
  String.prefix substr s
  || match s with
     | EmptyString => false
     | String.String _ s' => Contains s' substr
     end.

Definition contiene (args : list Object) : Result Object :=
  match args with
  | [a; b] =>
      match a, b with
      | String str, String substr =>
          Val (if Contains str substr then TRUE else FALSE)
      | _, _ =>
          match typeName a, typeName b with
          | Val ta, Val tb =>
              Val (newError
                ("argumentos no válidos para 'contiene': " ++ ta ++ ", " ++ tb))
          | Fail f, _ => Fail f
          | _, Fail f => Fail f
          end
      end
  | _ =>
      Val (newError
        ("número incorrecto de argumentos: se esperaba 2, se obtuvo "
         ++ pretty (length args)))
  end.

(** ** Numbers and collections

    [abs], [longitud], [agregar], [eliminar] and [rango], embedded as
    functions on the argument list like [contiene]; a built-in that returns
    a new [Array] allocates its address. *)

(** The message of the argument-count check each built-in starts with. *)
Definition wrongArity (expected : string) (args : list Object) : Object :=
  newError ("número incorrecto de argumentos: se esperaba " ++ expected
            ++ ", se obtuvo " ++ pretty (length args)).

(** The message of a type error that names the type of one argument. *)
Definition invalidArgument (what : string) (arg : Object) : Result Object :=
  match typeName arg with
  | Val t => Val (newError (what ++ t))
  | Fail f => Fail f
  end.

Definition abs (args : list Object) : Result Object :=
  match args with
  | [arg] =>
      match arg with
      | Integer value =>
          Val (Integer (if (value <? 0)%Z then wrap64 (- value) else value))
      | Float value => Val (Float (SFabs value))
      | _ => invalidArgument "argumento no válido para 'abs': " arg
      end
  | _ => Val (wrongArity "1" args)
  end.

Definition longitud (args : list Object) : Result Object :=
  match args with
  | [arg] =>
      match arg with
      | String s => Val (Integer (Z.of_nat (String.length s)))
      | Array _ elements => Val (Integer (Z.of_nat (length elements)))
      | Hash _ pairs => Val (Integer (Z.of_nat (length pairs)))
      | _ => invalidArgument "argumento no válido para 'longitud': " arg
      end
  | _ => Val (wrongArity "1" args)
  end.

(** [agregar]: the elements are copied into a new slice before the
    append, so the argument array is not written. *)
Definition agregar (args : list Object) : M Object :=
  match args with
  | [a; x] =>
      match a with
      | Array _ elements =>
          bind (step alloc) (fun p => ret (Array p (elements ++ [x])%list))
      | _ => lift (invalidArgument "primer argumento no válido para 'agregar': " a)
      end
  | _ => ret (wrongArity "2" args)
  end.

Definition eliminar (args : list Object) : M Object :=
  match args with
  | [a; b] =>
      match a, b with
      | Array _ elements, Integer i =>
          if ((i <? 0) || (Z.of_nat (length elements) <=? i))%Z
          then ret (newError "índice fuera de rango")
          else
            bind (step alloc) (fun p =>
            ret (Array p (firstn (Z.to_nat i) elements
                          ++ skipn (S (Z.to_nat i)) elements)%list))
      | _, _ =>
          match typeName a, typeName b with
          | Val ta, Val tb =>
              ret (newError
                ("argumentos no válidos para 'eliminar': " ++ ta ++ ", " ++ tb))
          | Fail f, _ => lift (Fail f)
          | _, Fail f => lift (Fail f)
          end
      end
  | _ => ret (wrongArity "2" args)
  end.

(** [for i := inicio; i <= fin; i++ { elements = append(elements, i) }]:
    the increment wraps around, so the loop has no bound of its own and [n]
    is fuel. *)
Fixpoint rango_loop (n : nat) (i fin : Z) (elements : list Object)
  : Result (list Object) :=
  if (i <=? fin)%Z then
    match n with
    | O => Fail OutOfFuel
    | S n' => rango_loop n' (wrap64 (i + 1)) fin (elements ++ [Integer i])%list
    end
  else Val elements.

(** The largest capacity [make] accepts for a slice of interface values, 16
    bytes each, on a 64-bit platform with a 48-bit heap address space;
    memory for a capacity within it is taken to be available. *)
Definition maxCap : Z := 2 ^ 44.

(** [rango]; [make([]object.Object, 0, fin-inicio+1)] panics when the
    capacity, computed in [int64], is negative or too large. *)
Definition rango (fuel : nat) (args : list Object) : M Object :=
  match args with
  | [a; b] =>
      match a with
      | Integer inicio =>
          match b with
          | Integer fin =>
              if (fin <? inicio)%Z
              then ret (newError "el inicio no puede ser mayor que el fin")
              else
                let cap := wrap64 (fin - inicio + 1) in
                if ((cap <? 0) || (maxCap <? cap))%Z
                then lift (Fail (Panic "runtime error: makeslice: cap out of range"))
                else
                  bind (lift (rango_loop fuel inicio fin [])) (fun elements =>
                  bind (step alloc) (fun p => ret (Array p elements)))
          | _ => lift (invalidArgument "segundo argumento no válido para 'rango': " b)
          end
      | _ => lift (invalidArgument "primer argumento no válido para 'rango': " a)
      end
  | _ => ret (wrongArity "2" args)
  end.

(** [registerBuiltin]: [env.Set(name, &object.Builtin{Fn: fn})] *)
Definition registerBuiltin (env : ptr) (name : string) (fn : BuiltinFunction)
  : M unit :=
  fun st =>
    let '(p, st) := alloc st in
    Val (tt, Set_ env name (Builtin p fn) st).

(** [LoadStdlib]: of the built-ins it registers, [contiene] is the one
    embedded here. *)
Definition LoadStdlib (env : ptr) : M unit :=
  registerBuiltin env "contiene" stdlib_contiene.

End stdlib.

(* ===================================================================== *)
(** * Package evaluator                                                  *)
(* ===================================================================== *)

Module evaluator.
Import object.

Notation "'do' x <- m ;; k" := (bind m (fun x => k))
  (at level 10, x name, m at level 99, k at level 200, only parsing).


(** ** Singletons and helpers *)

Definition TRUE : Object := Boolean 0 true.
Definition FALSE : Object := Boolean 1 false.
Definition NULL : Object := Null 2.

(** [var builtins = map[string]*object.Builtin{...}] *)
Definition builtins : gmap string Object :=
  list_to_map [ ("longitud", Builtin 3 evaluator_longitud);
                ("mostrar", Builtin 4 evaluator_mostrar) ].

Definition nativeBoolToBooleanObject (input : bool) : Object :=
  if input then TRUE else FALSE.

Definition isError (obj : Object) : bool :=
  match obj with
  | Error _ => true
  | _ => false
  end.

(** [newError]; the formatted message is built by the caller. *)
Definition newError (msg : string) : Object := Error msg.

(** [isTruthy]; it panics on the nil interface ([None]). *)
Definition isTruthy (obj : Object) : option bool :=
  if same obj NULL then Some false
  else if same obj TRUE then Some true
  else if same obj FALSE then Some false
  else
    match obj with
    | Nil => None
    | Integer v => Some (negb (v =? 0)%Z)
    | Float v => Some (negb (SFeqb v fzero))
    | String s => Some (negb (String.eqb s EmptyString))
    | _ => Some true
    end.

Definition truthy (obj : Object) : Result bool :=
  match isTruthy obj with
  | Some b => Val b
  | None => nilDeref
  end.

(** ** Prefix operators *)

Definition evalBangOperatorExpression (right : Object) : Object :=
  if same right TRUE then FALSE
  else if same right FALSE then TRUE
  else if same right NULL then TRUE
  else FALSE.

Definition evalMinusPrefixOperatorExpression (right : Object) : Result Object :=
  match right with
  | Nil => nilDeref
  | Integer value => Val (Integer (wrap64 (- value)))
  | Float value => Val (Float (SFopp value))
  | _ =>
      match typeName right with
      | Val t => Val (newError ("operador de prefijo desconocido: -" ++ t))
      | Fail f => Fail f
      end
  end.

Definition evalPrefixExpression (operator : string) (right : Object) : Result Object :=
  if String.eqb operator "!" then Val (evalBangOperatorExpression right)
  else if String.eqb operator "-" then evalMinusPrefixOperatorExpression right
  else
    match typeName right with
    | Val t => Val (newError ("operador de prefijo desconocido: " ++ operator ++ t))
    | Fail f => Fail f
    end.

(** ** Infix operators *)

Definition unknownOperator (lt operator rt : string) : Object :=
  newError ("operador desconocido: " ++ lt ++ " " ++ operator ++ " " ++ rt).

(** The operands have been asserted to be [*object.Integer]; [leftVal] and
    [rightVal] are their values. *)
Definition evalIntegerInfixExpression (operator : string) (leftVal rightVal : Z)
  : Object :=
  if String.eqb operator "+" then Integer (wrap64 (leftVal + rightVal))
  else if String.eqb operator "-" then Integer (wrap64 (leftVal - rightVal))
  else if String.eqb operator "*" then Integer (wrap64 (leftVal * rightVal))
  else if String.eqb operator "/" then
    if (rightVal =? 0)%Z then newError "división por cero"
    else Integer (wrap64 (Z.quot leftVal rightVal))
  else if String.eqb operator "%" then
    if (rightVal =? 0)%Z then newError "módulo por cero"
    else Integer (wrap64 (Z.rem leftVal rightVal))
  else if String.eqb operator "^" then
    Integer (Z.iter rightVal (fun result => wrap64 (result * leftVal)) 1%Z)
  else if String.eqb operator "<" then nativeBoolToBooleanObject (leftVal <? rightVal)%Z
  else if String.eqb operator ">" then nativeBoolToBooleanObject (rightVal <? leftVal)%Z
  else if String.eqb operator "==" then nativeBoolToBooleanObject (leftVal =? rightVal)%Z
  else if String.eqb operator "!=" then
    nativeBoolToBooleanObject (negb (leftVal =? rightVal)%Z)
  else unknownOperator INTEGER_OBJ operator INTEGER_OBJ.

(** [for i := 0.0; i < rightVal; i++ { result *= leftVal }] *)
Fixpoint floatPower (n : nat) (leftVal rightVal i result : float64) : Result float64 :=
  if SFltb i rightVal then
    match n with
    | O => Fail OutOfFuel
    | S n' => floatPower n' leftVal rightVal (fadd i fone) (fmul result leftVal)
    end
  else Val result.

(** [float64(int64(leftVal) % int64(rightVal))]: the integer remainder
    panics when the truncated divisor is zero, whatever the dividend. *)
Definition floatModulo (leftVal rightVal : float64) : Result Object :=
  match int64_of_float64 rightVal with
  | Some 0%Z => Fail (Panic "runtime error: integer divide by zero")
  | Some r =>
      match int64_of_float64 leftVal with
      | Some a => Val (Float (float64_of_int64 (Z.rem a r)))
      | None => Fail ImplDependent
      end
  | None => Fail ImplDependent
  end.

Definition evalFloatInfixExpression (fuel : nat) (operator : string)
    (leftVal rightVal : float64) : Result Object :=
  if String.eqb operator "+" then Val (Float (fadd leftVal rightVal))
  else if String.eqb operator "-" then Val (Float (fsub leftVal rightVal))
  else if String.eqb operator "*" then Val (Float (fmul leftVal rightVal))
  else if String.eqb operator "/" then
    if SFeqb rightVal fzero then Val (newError "división por cero")
    else Val (Float (fdiv leftVal rightVal))
  else if String.eqb operator "%" then
    if SFeqb rightVal fzero then Val (newError "módulo por cero")
    else floatModulo leftVal rightVal
  else if String.eqb operator "^" then
    match floatPower fuel leftVal rightVal fzero fone with
    | Val result => Val (Float result)
    | Fail f => Fail f
    end
  else if String.eqb operator "<" then
    Val (nativeBoolToBooleanObject (SFltb leftVal rightVal))
  else if String.eqb operator ">" then
    Val (nativeBoolToBooleanObject (SFltb rightVal leftVal))
  else if String.eqb operator "==" then
    Val (nativeBoolToBooleanObject (SFeqb leftVal rightVal))
  else if String.eqb operator "!=" then
    Val (nativeBoolToBooleanObject (negb (SFeqb leftVal rightVal)))
  else Val (unknownOperator FLOAT_OBJ operator FLOAT_OBJ).

Definition evalStringInfixExpression (operator : string) (leftVal rightVal : string)
  : Object :=
  if String.eqb operator "+" then String (leftVal ++ rightVal)
  else if String.eqb operator "==" then
    nativeBoolToBooleanObject (String.eqb leftVal rightVal)
  else if String.eqb operator "!=" then
    nativeBoolToBooleanObject (negb (String.eqb leftVal rightVal))
  else unknownOperator STRING_OBJ operator STRING_OBJ.

Definition evalLogicalAndOperator (left right : Object) : Result Object :=
  match truthy left with
  | Val b => if negb b then Val left else Val right
  | Fail f => Fail f
  end.

Definition evalLogicalOrOperator (left right : Object) : Result Object :=
  match truthy left with
  | Val b => if b then Val left else Val right
  | Fail f => Fail f
  end.

(** The cases of [evalInfixExpression] after the five typed ones. *)
Definition evalInfixExpression_rest (operator : string) (left right : Object)
  : Result Object :=
  if String.eqb operator "==" then Val (nativeBoolToBooleanObject (same left right))
  else if String.eqb operator "!=" then
    Val (nativeBoolToBooleanObject (negb (same left right)))
  else if String.eqb operator "y" then evalLogicalAndOperator left right
  else if String.eqb operator "o" then evalLogicalOrOperator left right
  else
    match typeName left, typeName right with
    | Val lt, Val rt =>
        if negb (String.eqb lt rt)
        then Val (newError ("tipo de operando no válido: " ++ lt ++ " " ++ operator
                            ++ " " ++ rt))
        else Val (unknownOperator lt operator rt)
    | Fail f, _ => Fail f
    | _, Fail f => Fail f
    end.

(** [evalInfixExpression]: a case whose first test holds calls
    [right.Type()], which panics on the nil interface. *)
Definition evalInfixExpression (fuel : nat) (operator : string) (left right : Object)
  : Result Object :=
  match left, right with
  | Nil, _ => nilDeref
  | Integer _, Nil | Float _, Nil | String _, Nil => nilDeref
  | Integer a, Integer b => Val (evalIntegerInfixExpression operator a b)
  | Float a, Float b => evalFloatInfixExpression fuel operator a b
  | Integer a, Float b => evalFloatInfixExpression fuel operator (float64_of_int64 a) b
  | Float a, Integer b => evalFloatInfixExpression fuel operator a (float64_of_int64 b)
  | String a, String b => Val (evalStringInfixExpression operator a b)
  | _, _ => evalInfixExpression_rest operator left right
  end.

(** ** Indexing *)

Definition evalArrayIndexExpression (elements : list Object) (idx : Z) : Object :=
  let max := (Z.of_nat (length elements) - 1)%Z in
  if ((idx <? 0) || (max <? idx))%Z then NULL
  else nth (Z.to_nat idx) elements Nil.

Definition evalHashIndexExpression (pairs : list (HashKey * (Object * Object)))
    (index : Object) : Result Object :=
  match HashKey_of index with
  | None =>
      match typeName index with
      | Val t => Val (newError ("clave no utilizable como hash: " ++ t))
      | Fail f => Fail f
      end
  | Some key =>
      match Pairs_lookup key pairs with
      | None => Val NULL
      | Some entry => Val (snd entry)
      end
  end.

Definition evalIndexExpression (left index : Object) : Result Object :=
  match left, index with
  | Nil, _ => nilDeref
  | Array _ _, Nil => nilDeref
  | Array _ elements, Integer idx => Val (evalArrayIndexExpression elements idx)
  | Hash _ pairs, _ => evalHashIndexExpression pairs index
  | _, _ =>
      match typeName left with
      | Val t => Val (newError ("operador de índice no soportado: " ++ t))
      | Fail f => Fail f
      end
  end.

(** ** Built-in functions *)

(** Whether [Inspect()] returns: it calls [Inspect()] on the value a
    [ReturnValue] wraps and on the elements of arrays and hashes, and
    [String()] on the body of a function; on nil those calls panic. *)
Fixpoint Inspectable (o : Object) : bool :=
  match o with
  | Nil => false
  | ReturnValue _ v => Inspectable v
  | FunctionObj f => parser.Block_Stringable (Body f)
  | Array _ elements => forallb Inspectable elements
  | Hash _ pairs =>
      forallb (fun e : HashKey * (Object * Object) =>
                 let '(_, (k, v)) := e in Inspectable k && Inspectable v) pairs
  | _ => true
  end.

(** [fmt.Println(arg.Inspect())] for each argument in turn.  The text is
    not computed; the state records which value was printed. *)
Fixpoint mostrar_loop (args : list Object) : M unit :=
  match args with
  | [] => ret tt
  | arg :: rest =>
      if Inspectable arg
      then do _ <- modify (print arg) ;; mostrar_loop rest
      else lift nilDeref
  end.

Definition mostrar (args : list Object) : M Object :=
  do _ <- mostrar_loop args ;; ret NULL.

Definition longitud (args : list Object) : Result Object :=
  match args with
  | [arg] =>
      match arg with
      | String s => Val (Integer (Z.of_nat (String.length s)))
      | Array _ elements => Val (Integer (Z.of_nat (length elements)))
      | _ =>
          match typeName arg with
          | Val t => Val (newError ("argumento para 'longitud' no soportado, se obtuvo " ++ t))
          | Fail f => Fail f
          end
      end
  | _ =>
      Val (newError ("número incorrecto de argumentos para 'longitud': se esperaba 1, se obtuvo "
                     ++ pretty (length args)))
  end.

(** [fn.Fn(args...)] *)
Definition callBuiltin (fn : BuiltinFunction) (args : list Object) : M Object :=
  match fn with
  | evaluator_longitud => lift (longitud args)
  | evaluator_mostrar => mostrar args
  | stdlib_contiene => lift (stdlib.contiene args)
  end.

(** ** The evaluator

    [Eval] calls itself through every helper below; inside the section
    [Eval_] is that recursive occurrence and [fuel] bounds the iterations
    of each loop. *)

Section Evaluation.

Variable fuel : nat.
Variable Eval_ : parser.Node -> ptr -> M Object.

Definition evalExpr (e : parser.Expression) (env : ptr) : M Object :=
  Eval_ (parser.NodeExpression e) env.

Definition evalStmt (s : parser.Statement) (env : ptr) : M Object :=
  Eval_ (parser.NodeStatement s) env.

Definition evalBlock (b : parser.BlockStatement) (env : ptr) : M Object :=
  Eval_ (parser.NodeStatement (parser.Block b)) env.

(** [x := Eval(...); if isError(x) { return x }] followed by [k x]. *)
Definition checked (m : M Object) (k : Object -> M Object) : M Object :=
  do x <- m ;; if isError x then ret x else k x.

Fixpoint evalProgram_loop (stmts : list parser.Statement) (env : ptr)
    (result : Object) : M Object :=
  match stmts with
  | [] => ret result
  | statement :: rest =>
      do result <- evalStmt statement env ;;
      match result with
      | ReturnValue _ v => ret v
      | Error _ => ret result
      | _ => evalProgram_loop rest env result
      end
  end.

Definition evalProgram (program : parser.Program) (env : ptr) : M Object :=
  evalProgram_loop (parser.Statements program) env Nil.

Fixpoint evalBlockStatement_loop (stmts : list parser.Statement) (env : ptr)
    (result : Object) : M Object :=
  match stmts with
  | [] => ret result
  | statement :: rest =>
      do result <- evalStmt statement env ;;
      match result with
      | ReturnValue _ _ | Error _ => ret result
      | _ => evalBlockStatement_loop rest env result
      end
  end.

Definition evalBlockStatement (block : parser.BlockStatement) (env : ptr) : M Object :=
  match block with
  | parser.mkBlockStatement _ stmts => evalBlockStatement_loop stmts env Nil
  end.

Definition evalIfExpression (condition : parser.Expression)
    (consequence : parser.BlockStatement) (alternative : option parser.BlockStatement)
    (env : ptr) : M Object :=
  checked (evalExpr condition env) (fun condition =>
  do b <- lift (truthy condition) ;;
  if b then evalBlock consequence env
  else match alternative with
       | Some alt => evalBlock alt env
       | None => ret NULL
       end).

Definition isReturnValue (obj : Object) : bool :=
  match obj with
  | ReturnValue _ _ => true
  | _ => false
  end.

Fixpoint evalWhileExpression_loop (n : nat) (condition : parser.Expression)
    (body : parser.BlockStatement) (env : ptr) (result : Object) : M Object :=
  match n with
  | O => lift (Fail OutOfFuel)
  | S n' =>
      checked (evalExpr condition env) (fun c =>
      do b <- lift (truthy c) ;;
      if negb b then ret result else
      checked (evalBlock body env) (fun result =>
      if isReturnValue result then ret result
      else evalWhileExpression_loop n' condition body env result))
  end.

Definition evalWhileExpression (condition : parser.Expression)
    (body : parser.BlockStatement) (env : ptr) : M Object :=
  evalWhileExpression_loop fuel condition body env NULL.

Fixpoint evalForExpression_loop (n : nat) (condition : parser.Expression)
    (update : parser.Statement) (body : parser.BlockStatement) (loopEnv : ptr)
    (result : Object) : M Object :=
  match n with
  | O => lift (Fail OutOfFuel)
  | S n' =>
      let iteration : M Object :=
        checked (evalBlock body loopEnv) (fun result =>
        if isReturnValue result then ret result else
        let next_ := evalForExpression_loop n' condition update body loopEnv result in
        match update with
        | parser.NilStatement => next_
        | _ => checked (evalStmt update loopEnv) (fun _ => next_)
        end) in
      match condition with
      | parser.NilExpression => iteration
      | _ =>
          checked (evalExpr condition loopEnv) (fun c =>
          do b <- lift (truthy c) ;;
          if negb b then ret result else iteration)
      end
  end.

Definition evalForExpression (init : parser.Statement) (condition : parser.Expression)
    (update : parser.Statement) (body : parser.BlockStatement) (env : ptr) : M Object :=
  do loopEnv <- step (NewEnclosedEnvironment env) ;;
  let loop := evalForExpression_loop fuel condition update body loopEnv NULL in
  match init with
  | parser.NilStatement => loop
  | _ => checked (evalStmt init loopEnv) (fun _ => loop)
  end.

(** The message is the format string itself: an identifier holds no [%]. *)
Definition evalIdentifier (name : string) (env : ptr) : M Object :=
  fun st =>
    match Get env name st with
    | Some val => Val (val, st)
    | None =>
        match builtins !! name with
        | Some builtin => Val (builtin, st)
        | None => Val (newError ("identificador no encontrado: " ++ name), st)
        end
    end.

Fixpoint evalExpressions_loop (exps : list parser.Expression) (env : ptr)
    (result : list Object) : M (list Object) :=
  match exps with
  | [] => ret result
  | e :: rest =>
      do evaluated <- evalExpr e env ;;
      if isError evaluated then ret [evaluated]
      else evalExpressions_loop rest env (result ++ [evaluated])%list
  end.

Definition evalExpressions (exps : list parser.Expression) (env : ptr)
  : M (list Object) :=
  evalExpressions_loop exps env [].

(** [len(args) == 1 && isError(args[0])] *)
Definition soleError (args : list Object) : option Object :=
  match args with
  | [a] => if isError a then Some a else None
  | _ => None
  end.

(** The parameter loop of [extendFunctionEnv]. *)
Fixpoint bindParameters (params : list parser.Identifier) (args : list Object)
    (env : ptr) (st : State) : State :=
  match params with
  | [] => st
  | param :: params' =>
      match args with
      | arg :: args' =>
          bindParameters params' args' env (Set_ env (parser.Identifier_Value param) arg st)
      | [] =>
          bindParameters params' [] env (Set_ env (parser.Identifier_Value param) NULL st)
      end
  end.

Definition extendFunctionEnv (fn : Function) (args : list Object) : M ptr :=
  do env <- step (NewEnclosedEnvironment (Env fn)) ;;
  do _ <- modify (bindParameters (Parameters fn) args env) ;;
  ret env.

Definition unwrapReturnValue (obj : Object) : Object :=
  match obj with
  | ReturnValue _ v => v
  | _ => obj
  end.

Definition applyFunction (fn : Object) (args : list Object) : M Object :=
  match fn with
  | FunctionObj f =>
      do extendedEnv <- extendFunctionEnv f args ;;
      do evaluated <- evalBlock (Body f) extendedEnv ;;
      ret (unwrapReturnValue evaluated)
  | Builtin _ b => callBuiltin b args
  | _ =>
      do t <- lift (typeName fn) ;;
      ret (newError ("no es una función: " ++ t))
  end.

(** [evalHashLiteral]; the pairs are visited in the order of the list. *)
Fixpoint evalHashLiteral_loop (nodes : list (parser.Expression * parser.Expression))
    (env : ptr) (pairs : list (HashKey * (Object * Object))) : M Object :=
  match nodes with
  | [] => do p <- step alloc ;; ret (Hash p pairs)
  | (keyNode, valueNode) :: rest =>
      checked (evalExpr keyNode env) (fun key =>
      match HashKey_of key with
      | None =>
          do t <- lift (typeName key) ;;
          ret (newError ("clave no utilizable como hash: " ++ t))
      | Some hashed =>
          checked (evalExpr valueNode env) (fun value =>
          evalHashLiteral_loop rest env (Pairs_insert hashed (key, value) pairs))
      end)
  end.

Definition evalHashLiteral (nodes : list (parser.Expression * parser.Expression))
    (env : ptr) : M Object :=
  evalHashLiteral_loop nodes env [].

(** [evalDotExpression] *)
Definition bindMethod (obj : ptr) (inst : Instance) (method : Function) : M Object :=
  do p <- step alloc ;;
  do methodEnv <- step (NewEnclosedEnvironment (Instance_Env inst)) ;;
  do _ <- modify (Set_ methodEnv "esto" (InstancePtr obj)) ;;
  ret (FunctionObj (mkFunction p (Parameters method) (Body method) methodEnv (Name method))).

Definition evalDotExpression (obj : Object) (property : string) : M Object :=
  match obj with
  | InstancePtr i =>
      fun st =>
        match instances st !! i with
        | None => nilDeref
        | Some inst =>
            match Properties inst !! property with
            | Some val => Val (val, st)
            | None =>
                match classes st !! Instance_Class inst with
                | None => nilDeref
                | Some class =>
                    match Methods class !! property with
                    | Some method => bindMethod i inst method st
                    | None =>
                        Val (newError ("propiedad o método no encontrado: " ++ property), st)
                    end
                end
            end
        end
  | String s =>
      if String.eqb property "longitud" then ret (Integer (Z.of_nat (String.length s)))
      else ret (newError ("propiedad no encontrada en string: " ++ property))
  | Array _ elements =>
      if String.eqb property "longitud" then ret (Integer (Z.of_nat (length elements)))
      else ret (newError ("propiedad no encontrada en array: " ++ property))
  | _ =>
      do t <- lift (typeName obj) ;;
      ret (newError ("acceso a propiedad no soportado para: " ++ t))
  end.

(** [evalClassLiteral] *)
Definition updateClass (c : ptr) (f : Class -> Class) (st : State) : State :=
  set_classes (alter f c (classes st)) st.

Fixpoint evalClassLiteral_properties (c : ptr) (props : list (option parser.LetStatement))
    (env : ptr) (k : M Object) : M Object :=
  match props with
  | [] => k
  | None :: _ => lift nilDeref
  | Some (parser.mkLetStatement _ name value) :: rest =>
      checked (evalExpr value env) (fun propValue =>
      do _ <- modify (updateClass c (fun cl =>
                mkClass (Class_Name cl)
                        (<[parser.Identifier_Value name := propValue]> (Class_Properties cl))
                        (Methods cl) (Parent cl))) ;;
      evalClassLiteral_properties c rest env k)
  end.

Fixpoint evalClassLiteral_methods (c : ptr) (methods : list parser.FunctionLiteral)
    (env : ptr) : M unit :=
  match methods with
  | [] => ret tt
  | parser.mkFunctionLiteral _ params body name :: rest =>
      do methodEnv <- step (NewEnclosedEnvironment env) ;;
      do p <- step alloc ;;
      do _ <- modify (updateClass c (fun cl =>
                mkClass (Class_Name cl) (Class_Properties cl)
                        (<[name := mkFunction p params body methodEnv name]> (Methods cl))
                        (Parent cl))) ;;
      evalClassLiteral_methods c rest env
  end.

Definition evalClassLiteral (name : parser.Identifier)
    (props : list (option parser.LetStatement)) (methods : list parser.FunctionLiteral)
    (env : ptr) : M Object :=
  do c <- step alloc ;;
  do _ <- modify (fun st =>
            set_classes (<[c := mkClass (parser.Identifier_Value name) ∅ ∅ None]> (classes st)) st) ;;
  evalClassLiteral_properties c props env (
  do _ <- evalClassLiteral_methods c methods env ;;
  do _ <- modify (Set_ env (parser.Identifier_Value name) (ClassPtr c)) ;;
  ret (ClassPtr c)).

(** [evalNewExpression] *)

(** The parameter loop of the constructor call: a parameter without an
    argument is left unbound. *)
Fixpoint bindConstructorParameters (params : list parser.Identifier)
    (args : list Object) (env : ptr) (st : State) : State :=
  match params, args with
  | param :: params', arg :: args' =>
      bindConstructorParameters params' args' env
        (Set_ env (parser.Identifier_Value param) arg st)
  | _, _ => st
  end.

(** Allocation of the instance: its environment, the struct, [esto], and
    the copy of the class's property defaults. *)
Definition newInstance (c : ptr) (class : Class) (env : ptr) : M ptr :=
  do instanceEnv <- step (NewEnclosedEnvironment env) ;;
  do i <- step alloc ;;
  do _ <- modify (fun st =>
            set_instances (<[i := mkInstance c ∅ instanceEnv]> (instances st)) st) ;;
  do _ <- modify (Set_ instanceEnv "esto" (InstancePtr i)) ;;
  do _ <- modify (fun st =>
            set_instances
              (alter (fun inst => mkInstance (Instance_Class inst)
                                    (Class_Properties class ∪ Properties inst)
                                    (Instance_Env inst)) i (instances st)) st) ;;
  ret i.

(** The environment the constructor body runs in. *)
Definition newConstructorEnv (i : ptr) (constructor : Function) (args : list Object)
  : M ptr :=
  do constructorEnv <- step (NewEnclosedEnvironment (Env constructor)) ;;
  do _ <- modify (Set_ constructorEnv "esto" (InstancePtr i)) ;;
  do _ <- modify (bindConstructorParameters (Parameters constructor) args constructorEnv) ;;
  ret constructorEnv.

(** The call of [crear]; what its body evaluates to is dropped. *)
Definition callConstructor (i : ptr) (constructor : Function)
    (arguments : list parser.Expression) (env : ptr) : M Object :=
  do args <- evalExpressions arguments env ;;
  match soleError args with
  | Some err => ret err
  | None =>
      do constructorEnv <- newConstructorEnv i constructor args ;;
      do _ <- evalBlock (Body constructor) constructorEnv ;;
      ret (InstancePtr i)
  end.

Definition evalNewExpression (class : parser.Expression)
    (arguments : list parser.Expression) (env : ptr) : M Object :=
  checked (evalExpr class env) (fun classObj =>
  match classObj with
  | ClassPtr c =>
      fun st =>
        match classes st !! c with
        | None => nilDeref
        | Some cl =>
            (do i <- newInstance c cl env ;;
             match Methods cl !! "crear" with
             | Some constructor => callConstructor i constructor arguments env
             | None => ret (InstancePtr i)
             end) st
        end
  | _ =>
      do t <- lift (typeName classObj) ;;
      ret (newError ("no es una clase: " ++ t))
  end).

(** [Eval]: one level of the type switch. *)
Definition Eval_body (node : parser.Node) (env : ptr) : M Object :=
  match node with
  | parser.NodeProgram program => evalProgram program env
  | parser.NodeStatement s =>
      match s with
      | parser.NilStatement => ret NULL
      | parser.ExpressionStatement _ e => evalExpr e env
      | parser.Block block => evalBlockStatement block env
      | parser.LetNil => lift nilDeref
      | parser.Let (parser.mkLetStatement _ name value) =>
          checked (evalExpr value env) (fun val =>
          do _ <- modify (Set_ env (parser.Identifier_Value name) val) ;;
          ret val)
      | parser.ReturnStatement _ value =>
          checked (evalExpr value env) (fun val =>
          do p <- step alloc ;;
          ret (ReturnValue p val))
      end
  | parser.NodeExpression e =>
      match e with
      | parser.NilExpression => ret NULL
      | parser.IntegerLiteral _ v => ret (Integer v)
      | parser.FloatLiteral _ v => ret (Float v)
      | parser.StringLiteral _ v => ret (String v)
      | parser.BooleanLiteral _ v => ret (nativeBoolToBooleanObject v)
      | parser.NullLiteral _ => ret NULL
      | parser.PrefixExpression _ operator rightNode =>
          checked (evalExpr rightNode env) (fun right =>
          lift (evalPrefixExpression operator right))
      | parser.InfixExpression _ leftNode operator rightNode =>
          checked (evalExpr leftNode env) (fun left =>
          checked (evalExpr rightNode env) (fun right =>
          lift (evalInfixExpression fuel operator left right)))
      | parser.IfExpression _ c consequence alternative =>
          evalIfExpression c consequence alternative env
      | parser.WhileExpression _ c body => evalWhileExpression c body env
      | parser.ForExpression _ init c update body =>
          evalForExpression init c update body env
      | parser.Ident (parser.mkIdentifier _ name) => evalIdentifier name env
      | parser.FunctionLit (parser.mkFunctionLiteral _ params body name) =>
          do p <- step alloc ;;
          ret (FunctionObj (mkFunction p params body env name))
      | parser.CallExpression _ function arguments =>
          checked (evalExpr function env) (fun function =>
          do args <- evalExpressions arguments env ;;
          match soleError args with
          | Some err => ret err
          | None => applyFunction function args
          end)
      | parser.ArrayLiteral _ elements =>
          do elements <- evalExpressions elements env ;;
          match soleError elements with
          | Some err => ret err
          | None => do p <- step alloc ;; ret (Array p elements)
          end
      | parser.IndexExpression _ leftNode indexNode =>
          checked (evalExpr leftNode env) (fun left =>
          checked (evalExpr indexNode env) (fun index =>
          lift (evalIndexExpression left index)))
      | parser.HashLiteral _ pairs => evalHashLiteral pairs env
      | parser.DotExpression _ obj (parser.mkIdentifier _ property) =>
          checked (evalExpr obj env) (fun obj => evalDotExpression obj property)
      | parser.ClassLiteral _ name _ _ props methods =>
          evalClassLiteral name props methods env
      | parser.NewExpression _ class arguments =>
          evalNewExpression class arguments env
      end
  end.

End Evaluation.

(** [Eval]; the name is a keyword of Rocq, hence the underscore. *)
Fixpoint Eval_ (fuel : nat) (node : parser.Node) (env : ptr) : M Object :=
  match fuel with
  | O => lift (Fail OutOfFuel)
  | S f => Eval_body f (fun node env st => Eval_ f node env st) node env
  end.

End evaluator.

(* ===================================================================== *)
(** * Package main: evaluating a source text                             *)
(* ===================================================================== *)

Module main.
Import object.

(** The state a run starts from: nothing allocated yet beyond the
    package-level singletons, which occupy the addresses below [8]
    ([evaluator.TRUE], [FALSE], [NULL], the two built-ins of the evaluator,
    and [stdlib.TRUE], [FALSE], [NULL]). *)
Definition start : State := mkState ∅ ∅ ∅ 8 [].

(** [evaluateInput]; the parser's diagnostics go to standard output and are
    not kept, the result is then the nil interface. *)
Definition evaluateInput (fuel : nat) (input : string) (env : ptr) : M Object :=
  fun st =>
    match parser.ParseProgram fuel (parser.New (lexer.New input)) with
    | parser.Ok program p =>
        match parser.Errors p with
        | [] => evaluator.Eval_ fuel (parser.NodeProgram program) env st
        | _ => Val (Nil, st)
        end
    | parser.Panic msg => Fail (Panic msg)
    | parser.OutOfFuel => Fail OutOfFuel
    end.

(** A fresh global environment, then the source text: the evaluator on
    its own, without the standard library. *)
Definition run (fuel : nat) (input : string) : Result (Object * State) :=
  let '(env, st) := NewEnvironment start in
  evaluateInput fuel input env st.

(** As [main] does it: a fresh global environment, [LoadStdlib], then the
    source text. *)
Definition runWithStdlib (fuel : nat) (input : string) : Result (Object * State) :=
  let '(env, st) := NewEnvironment start in
  match stdlib.LoadStdlib env st with
  | Val (_, st) => evaluateInput fuel input env st
  | Fail f => Fail f
  end.

(** ** The line scanner of the interactive mode

    [Scan] reads its [io.Reader] one byte at a time.  A reader is the
    sequence of what its successive [Read] calls on a one-byte buffer make
    the scanner see: a byte, nothing ([n == 0] with no error), the end of
    the input, or another error (in both cases whatever was also read is
    ignored); once the sequence is used up the reader reports the end of
    the input. *)

Inductive ReadEvent : Type :=
| ReadByte (c : ascii)
| ReadNothing
| ReadEOF
| ReadError (msg : string).

Record LineScanner : Type := mkLineScanner {
  reader : list ReadEvent;
  buffer : string;
  position : Z;
  bracketOpen : Z
}.

Definition NewLineScanner (r : list ReadEvent) : LineScanner :=
  {| reader := r; buffer := EmptyString; position := 0; bracketOpen := 0 |}.

(** The braces count of [Scan] after the byte [c]. *)
Definition countBrace (c : ascii) (open : Z) : Z :=
  if Ascii.eqb c "{" then wrap64 (open + 1)
  else if Ascii.eqb c "}" then
    let open := wrap64 (open - 1) in
    if (open <? 0)%Z then 0%Z else open
  else open.

(** The loop of [Scan]: the line read so far, and what is left of the
    reader.  The result is the triple [Scan] returns, the error being
    [None] for nil. *)
Fixpoint Scan_loop (events : list ReadEvent) (open : Z) (line : string)
  : (string * bool * option string) * (list ReadEvent * Z) :=
  match events with
  | [] => ((line, false, None), ([], open))
  | ReadEOF :: rest => ((line, false, None), (rest, open))
  | ReadError msg :: rest => ((EmptyString, false, Some msg), (rest, open))
  | ReadNothing :: rest => Scan_loop rest open line
  | ReadByte c :: rest =>
      if Ascii.eqb c lexer.LF then ((line, (0 <? open)%Z, None), (rest, open))
      else Scan_loop rest (countBrace c open) (line ++ String.String c EmptyString)
  end.

Definition Scan (ls : LineScanner) : (string * bool * option string) * LineScanner :=
  let '(r, (rest, open)) := Scan_loop (reader ls) (bracketOpen ls) EmptyString in
  (r, {| reader := rest; buffer := buffer ls; position := position ls;
         bracketOpen := open |}).

(** The part of [startRepl] that reads one command: a line, and while the
    scanner asks for more the following lines, joined by newlines.  [None]
    when a read fails.  Every [Scan] that asks for more has used up a
    newline, so [n], the number of events left plus one, bounds the loop. *)
Fixpoint readCommand_loop (n : nat) (ls : LineScanner) (line : string) (more : bool)
  : option string * LineScanner :=
  if more then
    match n with
    | O => (Some line, ls)
    | S n' =>
        let '((nextLine, moreInput, err), ls') := Scan ls in
        match err with
        | Some _ => (None, ls')
        | None =>
            readCommand_loop n' ls' (line ++ String.String lexer.LF nextLine) moreInput
        end
    end
  else (Some line, ls).

Definition readCommand (ls : LineScanner) : option string * LineScanner :=
  let '((line, more, err), ls') := Scan ls in
  match err with
  | Some _ => (None, ls')
  | None => readCommand_loop (S (length (reader ls'))) ls' line more
  end.

End main.

(* ===================================================================== *)
(** * Vocabulary of the properties                                       *)
(* ===================================================================== *)

Module props.
Import object.

(** The arithmetic infix operators. *)
Definition arithmetic (operator : string) : bool :=
  existsb (String.eqb operator) ["+"; "-"; "*"; "/"; "%"; "^"].

Definition isInteger (o : Object) : bool :=
  match o with
  | Integer _ => true
  | _ => false
  end.

Definition isFloat (o : Object) : bool :=
  match o with
  | Float _ => true
  | _ => false
  end.

(** The two operands have different types, and not the pair Integer, Float
    in either order. *)
Definition mixedOther (left right : Object) : bool :=
  match Type_ left, Type_ right with
  | Some lt, Some rt =>
      negb (String.eqb lt rt)
      && negb ((isInteger left && isFloat right) || (isFloat left && isInteger right))
  | _, _ => false
  end.

(** A [Boolean] at the address of one of the evaluator's two singletons
    holds that singleton's value: an address is one struct. *)
Definition consistent (o : Object) : bool :=
  match o with
  | Boolean 0 b => b
  | Boolean 1 b => negb b
  | _ => true
  end.

(** The value is a boolean false, whichever allocation holds it. *)
Definition isFalso (o : Object) : bool :=
  match o with
  | Boolean _ b => negb b
  | _ => false
  end.

Definition isNulo (o : Object) : bool :=
  match o with
  | Null _ => true
  | _ => false
  end.

(** What the specification calls falsy: nulo, falso, Integer 0, Float 0 of
    either sign, the empty string. *)
Definition specFalsy (o : Object) : bool :=
  match o with
  | Null _ => true
  | Boolean _ b => negb b
  | Integer v => (v =? 0)%Z
  | Float (S754_zero _) => true
  | String s => String.eqb s EmptyString
  | _ => false
  end.

(** Operands that reach the logical operators: [evalInfixExpression] sends
    two numbers or two strings to the typed operators first, and panics on
    a nil operand it asks the type of. *)
Definition reachesLogical (left right : Object) : bool :=
  match left, right with
  | Nil, _ => false
  | Integer _, Integer _ | Integer _, Float _ | Integer _, Nil => false
  | Float _, Integer _ | Float _, Float _ | Float _, Nil => false
  | String _, String _ | String _, Nil => false
  | _, _ => true
  end.

(** A token for syntax trees written by hand; the evaluator never reads
    the tokens. *)
Definition tok0 : lexer.Token := lexer.mkToken EmptyString EmptyString 0 0.

End props.

(** ** The helpers of the evaluator at a given fuel *)

Module run.
Import object.

Definition Eval_ (fuel : nat) : parser.Node -> ptr -> M Object :=
  fun node env st => evaluator.Eval_ fuel node env st.

Definition evalExpressions (fuel : nat) : list parser.Expression -> ptr -> M (list Object) :=
  evaluator.evalExpressions (Eval_ fuel).

Definition applyFunction (fuel : nat) : Object -> list Object -> M Object :=
  evaluator.applyFunction (Eval_ fuel).

Definition evalNewExpression (fuel : nat)
  : parser.Expression -> list parser.Expression -> ptr -> M Object :=
  evaluator.evalNewExpression (Eval_ fuel).

(** The program text of a class whose constructor divides by zero, the
    state after it has been evaluated in a fresh global environment (at
    address 8), and the syntax of [nuevo C(1)]. *)
Definition failingConstructorClass : string := "clase C { fun crear(x) { 1/0 }".

Definition afterFailingConstructorClass : State :=
  match main.run 10 failingConstructorClass with
  | Val (_, st) => st
  | Fail _ => main.start
  end.

Definition nuevoC1 : parser.Expression :=
  parser.NewExpression props.tok0
    (parser.Ident (parser.mkIdentifier props.tok0 "C"))
    [parser.IntegerLiteral props.tok0 1].

(** The state in which the global environment, at address 8, has just
    been allocated; the syntax tree of a source text; and the state after
    the text has been evaluated in that environment. *)
Definition globalState : State := snd (NewEnvironment main.start).

Definition programOf (input : string) : parser.Program :=
  match parser.ParseProgram 10 (parser.New (lexer.New input)) with
  | parser.Ok program _ => program
  | _ => parser.mkProgram []
  end.

Definition stateAfter (input : string) : State :=
  match main.run 10 input with
  | Val (_, st) => st
  | Fail _ => main.start
  end.

(** Three classes with one instance each, [c]: a method [m] that a
    property of the same name shadows, a method whose parameter is named
    [esto], and a plain method.  (The parser ends a class body at the brace
    that closes its first method.) *)
Definition shadowedMethod : string :=
  "clase C { guarda m = 1 fun m() { devolver 2 } ; guarda c = nuevo C".

Definition estoParameter : string :=
  "clase C { fun m(esto) { devolver 1 } ; guarda c = nuevo C".

Definition plainMethod : string :=
  "clase C { fun m(a) { devolver a } ; guarda c = nuevo C".

End run.

(** ** The receiver [esto]: invariant and frame *)

Module scope.
Import object.

(** [esto] names the instance in the instance's own environment. *)
Definition estoBound (st : State) (i : ptr) (inst : Instance) : Prop :=
  exists E : Environment,
    envs st !! Instance_Env inst = Some E
    /\ store E !! "esto" = Some (InstancePtr i).

(** Every instance of the state was allocated, with its environment, and
    its environment binds [esto] to it. *)
Definition wellFormed (st : State) : Prop :=
  forall (i : ptr) (inst : Instance),
    instances st !! i = Some inst ->
    i < next st /\ Instance_Env inst < next st /\ estoBound st i inst.

(** [env] is an environment code is evaluated in: it was allocated, and it
    is not the own environment of an instance. *)
Definition evaluationEnv (env : ptr) (st : State) : Prop :=
  env < next st
  /\ forall (i : ptr) (inst : Instance),
       instances st !! i = Some inst -> Instance_Env inst <> env.

(** From [st] to [st'] nothing allocated in [st] has changed, except
    possibly the environment [env]; what is new was allocated after. *)
Definition extends (env : ptr) (st st' : State) : Prop :=
  next st <= next st'
  /\ (forall e : ptr, e < next st -> e <> env -> envs st' !! e = envs st !! e)
  /\ (forall i : ptr, i < next st -> instances st' !! i = instances st !! i)
  /\ (forall (i : ptr) (inst : Instance),
         instances st' !! i = Some inst -> next st <= i -> next st <= Instance_Env inst).

(** A computation evaluated in [env] keeps the state well formed and only
    extends it. *)
Definition preserves {A : Type} (env : ptr) (m : M A) : Prop :=
  forall (st st' : State) (a : A),
    wellFormed st -> evaluationEnv env st -> m st = Val (a, st') ->
    wellFormed st' /\ extends env st st'.

(** A state change that leaves the counter, the instances and every
    environment but [e] as they are. *)
Definition touchesOnly (e : ptr) (f : State -> State) : Prop :=
  forall st : State,
    next (f st) = next st
    /\ instances (f st) = instances st
    /\ forall e' : ptr, e' <> e -> envs (f st) !! e' = envs st !! e'.

(** A computation that allocates one environment, the next address, binds
    names in it, and returns it. *)
Definition allocatesEnv (m : M ptr) : Prop :=
  forall (st st' : State) (e : ptr),
    m st = Val (e, st') ->
    e = next st
    /\ next st' = S (next st)
    /\ instances st' = instances st
    /\ forall e' : ptr, e' <> e -> envs st' !! e' = envs st !! e'.

(** The names of the parameters of a function. *)
Definition parameterNames (f : Function) : list string :=
  map parser.Identifier_Value (Parameters f).

End scope.

(* ===================================================================== *)
(** * Properties                                                         *)
(* ===================================================================== *)

Import object.

(** ** Sequencing *)

Lemma bind_val {A B : Type} (m : M A) (k : A -> M B) (st st1 : State) (a : A) :
  m st = Val (a, st1) -> bind m k st = k a st1.
Proof. intros H. unfold bind. rewrite H. reflexivity. Qed.

Lemma bind_fail {A B : Type} (m : M A) (k : A -> M B) (st : State) (f : Failure) :
  m st = Fail f -> bind m k st = Fail f.
Proof. intros H. unfold bind. rewrite H. reflexivity. Qed.

Lemma checked_val (m : M Object) (k : Object -> M Object) (st st1 : State) (x : Object) :
  m st = Val (x, st1) -> evaluator.isError x = false ->
  evaluator.checked m k st = k x st1.
Proof. intros H E. unfold evaluator.checked, bind. rewrite H, E. reflexivity. Qed.

Lemma checked_error (m : M Object) (k : Object -> M Object) (st st1 : State) (x : Object) :
  m st = Val (x, st1) -> evaluator.isError x = true ->
  evaluator.checked m k st = Val (x, st1).
Proof. intros H E. unfold evaluator.checked, bind. rewrite H, E. reflexivity. Qed.

(** One level of [Eval]. *)
Lemma Eval_S (fuel : nat) (node : parser.Node) (env : ptr) :
  evaluator.Eval_ (S fuel) node env
  = evaluator.Eval_body fuel (fun node env st => evaluator.Eval_ fuel node env st) node env.
Proof. reflexivity. Qed.

(** ** Integer division and modulo (C3) *)

Lemma evalIntegerInfixExpression_div (a b : Z) :
  evaluator.evalIntegerInfixExpression "/" a b
  = if (b =? 0)%Z then Error "división por cero" else Integer (wrap64 (Z.quot a b)).
Proof. reflexivity. Qed.

Lemma evalIntegerInfixExpression_mod (a b : Z) :
  evaluator.evalIntegerInfixExpression "%" a b
  = if (b =? 0)%Z then Error "módulo por cero" else Integer (wrap64 (Z.rem a b)).
Proof. reflexivity. Qed.

(** How [Eval] treats an infix node whose operands evaluate to non-errors. *)
Lemma Eval_InfixExpression (fuel : nat) (tok : lexer.Token)
    (L R : parser.Expression) (operator : string) (env : ptr) (st st1 st2 : State)
    (l r : Object) :
  evaluator.Eval_ fuel (parser.NodeExpression L) env st = Val (l, st1) ->
  evaluator.isError l = false ->
  evaluator.Eval_ fuel (parser.NodeExpression R) env st1 = Val (r, st2) ->
  evaluator.isError r = false ->
  evaluator.Eval_ (S fuel) (parser.NodeExpression (parser.InfixExpression tok L operator R))
                  env st
  = lift (evaluator.evalInfixExpression fuel operator l r) st2.
Proof.
  intros HL El HR Er. rewrite Eval_S. cbn [evaluator.Eval_body].
  unfold evaluator.evalExpr.
  rewrite (checked_val _ _ st st1 l) by assumption.
  rewrite (checked_val _ _ st1 st2 r) by assumption.
  reflexivity.
Qed.

(** C3. For all integers [a] and [b] that the operands of [/] and [%]
    evaluate to: when [b = 0] the division is the Error "división por cero"
    and the modulo the Error "módulo por cero"; when [b <> 0] both are an
    Integer (the truncated quotient and the remainder, in 64 bits) and no
    Error. *)
Theorem integer_division_and_modulo (fuel : nat) (tok : lexer.Token)
    (L R : parser.Expression) (env : ptr) (st st1 st2 : State) (a b : Z) :
  evaluator.Eval_ fuel (parser.NodeExpression L) env st = Val (Integer a, st1) ->
  evaluator.Eval_ fuel (parser.NodeExpression R) env st1 = Val (Integer b, st2) ->
  let div := evaluator.Eval_ (S fuel)
               (parser.NodeExpression (parser.InfixExpression tok L "/" R)) env st in
  let rem := evaluator.Eval_ (S fuel)
               (parser.NodeExpression (parser.InfixExpression tok L "%" R)) env st in
  (b = 0%Z -> div = Val (Error "división por cero", st2)
              /\ rem = Val (Error "módulo por cero", st2))
  /\ (b <> 0%Z -> div = Val (Integer (wrap64 (Z.quot a b)), st2)
                 /\ rem = Val (Integer (wrap64 (Z.rem a b)), st2)).
Proof.
  intros HL HR div rem. subst div rem.
  rewrite !(Eval_InfixExpression fuel tok L R _ env st st1 st2 (Integer a) (Integer b))
    by (assumption || reflexivity).
  cbn [evaluator.evalInfixExpression lift].
  rewrite evalIntegerInfixExpression_div, evalIntegerInfixExpression_mod.
  split.
  - intros ->. split; reflexivity.
  - intros Hb. apply Z.eqb_neq in Hb. rewrite Hb. split; reflexivity.
Qed.

Lemma integer_division_and_modulo_witness :
  evaluator.Eval_ 2 (parser.NodeExpression
                       (parser.InfixExpression props.tok0 (parser.IntegerLiteral props.tok0 7) "/"
                                               (parser.IntegerLiteral props.tok0 0)))
                  0 main.start
  = Val (Error "división por cero", main.start)
  /\ evaluator.Eval_ 2 (parser.NodeExpression
                          (parser.InfixExpression props.tok0 (parser.IntegerLiteral props.tok0 (-7)) "%"
                                                  (parser.IntegerLiteral props.tok0 2)))
                     0 main.start
     = Val (Integer (-1), main.start).
Proof.
  split.
  - apply (integer_division_and_modulo 1 props.tok0 (parser.IntegerLiteral props.tok0 7)
             (parser.IntegerLiteral props.tok0 0) 0 main.start main.start main.start 7 0);
      reflexivity.
  - apply (integer_division_and_modulo 1 props.tok0 (parser.IntegerLiteral props.tok0 (-7))
             (parser.IntegerLiteral props.tok0 2) 0 main.start main.start main.start (-7) 2);
      [reflexivity | reflexivity | lia].
Defined.

(** ** Numeric promotion (C5) *)

Lemma arithmetic_cases (operator : string) :
  props.arithmetic operator = true ->
  operator = "+" \/ operator = "-" \/ operator = "*" \/ operator = "/"
  \/ operator = "%" \/ operator = "^".
Proof.
  unfold props.arithmetic. cbn [existsb]. rewrite !orb_true_iff, !String.eqb_eq.
  intuition discriminate.
Qed.

(** C5, as stated, fails: the operands of [1 / 0] are both Integer and the
    operation is arithmetic, yet the result is an Error. *)
Lemma integer_operands_can_yield_error :
  ~ (forall (operator : string) (a b : Z),
        props.arithmetic operator = true ->
        exists v : Z,
          evaluator.evalInfixExpression 0 operator (Integer a) (Integer b)
          = Val (Integer v)).
Proof.
  intros H. destruct (H "/" 1%Z 0%Z eq_refl) as [v Hv]. discriminate Hv.
Qed.

(** C5, amended. For every arithmetic infix operator: Integer op Integer
    yields an Integer, except that [/] and [%] with a zero right operand
    yield an Error; when exactly one operand is Float the Integer operand is
    converted to Float and the result is that of Float op Float; a pair of
    operands of different types other than Integer and Float yields an
    Error. *)
Theorem arithmetic_promotion (fuel : nat) (operator : string) :
  props.arithmetic operator = true ->
  (forall a b : Z,
      (b <> 0%Z \/ (operator <> "/" /\ operator <> "%") ->
       exists v : Z,
         evaluator.evalInfixExpression fuel operator (Integer a) (Integer b)
         = Val (Integer v))
      /\ (b = 0%Z -> operator = "/" \/ operator = "%" ->
          exists msg : string,
            evaluator.evalInfixExpression fuel operator (Integer a) (Integer b)
            = Val (Error msg)))
  /\ (forall (a : Z) (f : float64),
         evaluator.evalInfixExpression fuel operator (Integer a) (Float f)
         = evaluator.evalFloatInfixExpression fuel operator (float64_of_int64 a) f
         /\ evaluator.evalInfixExpression fuel operator (Float f) (Integer a)
            = evaluator.evalFloatInfixExpression fuel operator f (float64_of_int64 a))
  /\ (forall left right : Object,
         props.mixedOther left right = true ->
         exists msg : string,
           evaluator.evalInfixExpression fuel operator left right = Val (Error msg)).
Proof.
  intros Hop. apply arithmetic_cases in Hop. split; [| split].
  - intros a b. split.
    2: { intros -> [-> | ->]; eexists; reflexivity. }
    intros Hb. cbn [evaluator.evalInfixExpression].
    destruct Hop as [-> | [-> | [-> | [-> | [-> | ->]]]]];
      try (eexists; reflexivity).
    + destruct Hb as [Hb | [Hb _]]; [| congruence].
      apply Z.eqb_neq in Hb. eexists.
      rewrite evalIntegerInfixExpression_div, Hb. reflexivity.
    + destruct Hb as [Hb | [_ Hb]]; [| congruence].
      apply Z.eqb_neq in Hb. eexists.
      rewrite evalIntegerInfixExpression_mod, Hb. reflexivity.
  - intros a f. split; reflexivity.
  - intros left right Hm.
    destruct left, right; try discriminate Hm;
      destruct Hop as [-> | [-> | [-> | [-> | [-> | ->]]]]];
      eexists; reflexivity.
Qed.

Lemma arithmetic_promotion_witness :
  (exists v : Z,
      evaluator.evalInfixExpression 0 "*" (Integer 6) (Integer 7) = Val (Integer v))
  /\ (exists msg : string,
         evaluator.evalInfixExpression 0 "+" (String "a") (Integer 1) = Val (Error msg)).
Proof.
  split.
  - apply (proj1 (proj1 (arithmetic_promotion 0 "*" eq_refl) 6%Z 7%Z)).
    left. lia.
  - apply (proj2 (proj2 (arithmetic_promotion 0 "+" eq_refl)) (String "a") (Integer 1)).
    reflexivity.
Defined.

(** ** Array indexing (C6) *)

Lemma Eval_IndexExpression (fuel : nat) (tok : lexer.Token)
    (L I : parser.Expression) (env : ptr) (st st1 st2 : State) (l i : Object) :
  evaluator.Eval_ fuel (parser.NodeExpression L) env st = Val (l, st1) ->
  evaluator.isError l = false ->
  evaluator.Eval_ fuel (parser.NodeExpression I) env st1 = Val (i, st2) ->
  evaluator.isError i = false ->
  evaluator.Eval_ (S fuel) (parser.NodeExpression (parser.IndexExpression tok L I)) env st
  = lift (evaluator.evalIndexExpression l i) st2.
Proof.
  intros HL El HI Ei. rewrite Eval_S. cbn [evaluator.Eval_body].
  unfold evaluator.evalExpr.
  rewrite (checked_val _ _ st st1 l) by assumption.
  rewrite (checked_val _ _ st1 st2 i) by assumption.
  reflexivity.
Qed.

(** C6. When the receiver evaluates to an Array [a] and the index to an
    Integer [i], [a[i]] is the element at position [i] if
    [0 <= i < length a], and nulo (which is not an Error) if [i < 0] or
    [i >= length a]; and the program [[1,2,3][5]] evaluates to nulo. *)
Theorem array_index (fuel : nat) (tok : lexer.Token) (L I : parser.Expression)
    (env : ptr) (st st1 st2 : State) (p : ptr) (a : list Object) (i : Z) :
  evaluator.Eval_ fuel (parser.NodeExpression L) env st = Val (Array p a, st1) ->
  evaluator.Eval_ fuel (parser.NodeExpression I) env st1 = Val (Integer i, st2) ->
  let result := evaluator.Eval_ (S fuel)
                  (parser.NodeExpression (parser.IndexExpression tok L I)) env st in
  ((0 <= i < Z.of_nat (length a))%Z ->
   exists x : Object, a !! Z.to_nat i = Some x /\ result = Val (x, st2))
  /\ ((i < 0 \/ Z.of_nat (length a) <= i)%Z ->
      result = Val (evaluator.NULL, st2) /\ evaluator.isError evaluator.NULL = false)
  /\ (exists st' : State, main.run 10 "[1,2,3][5]" = Val (evaluator.NULL, st')).
Proof.
  intros HL HI result. subst result.
  rewrite (Eval_IndexExpression fuel tok L I env st st1 st2 (Array p a) (Integer i))
    by (assumption || reflexivity).
  cbn [evaluator.evalIndexExpression lift]. unfold evaluator.evalArrayIndexExpression.
  repeat split.
  - intros [H0 Hlen].
    destruct (Z.ltb_spec i 0); [lia |].
    destruct (Z.ltb_spec (Z.of_nat (length a) - 1) i); [lia |].
    cbn [orb].
    destruct (lookup_lt_is_Some_2 a (Z.to_nat i)) as [x Hx]; [lia |].
    exists x. split; [exact Hx |].
    rewrite nth_lookup, Hx. reflexivity.
  - destruct H as [H | H].
    + destruct (Z.ltb_spec i 0); [reflexivity | lia].
    + destruct (Z.ltb_spec (Z.of_nat (length a) - 1) i); [| lia].
      rewrite orb_true_r. reflexivity.
  - eexists. vm_compute. reflexivity.
Qed.

Lemma array_index_witness :
  (exists x : Object,
      [Integer 1; Integer 2; Integer 3] !! Z.to_nat 1 = Some x
      /\ evaluator.Eval_ 3 (parser.NodeExpression
           (parser.IndexExpression props.tok0
              (parser.ArrayLiteral props.tok0
                 [parser.IntegerLiteral props.tok0 1; parser.IntegerLiteral props.tok0 2;
                  parser.IntegerLiteral props.tok0 3])
              (parser.IntegerLiteral props.tok0 1))) 0 main.start
         = Val (x, snd (alloc main.start))).
Proof.
  apply (proj1 (array_index 2 props.tok0
                  (parser.ArrayLiteral props.tok0
                     [parser.IntegerLiteral props.tok0 1; parser.IntegerLiteral props.tok0 2;
                      parser.IntegerLiteral props.tok0 3])
                  (parser.IntegerLiteral props.tok0 1) 0 main.start
                  (snd (alloc main.start)) (snd (alloc main.start)) 8
                  [Integer 1; Integer 2; Integer 3] 1 eq_refl eq_refl)).
  cbn. lia.
Defined.

(** ** Float modulo (C7) *)

(** Where the operands are representable and the truncated divisor is not
    zero, the float modulo is the integer remainder of the truncations. *)
Lemma floatModulo_representable (fuel : nat) (l r : float64) (a b : Z) :
  SFeqb r fzero = false ->
  int64_of_float64 l = Some a ->
  int64_of_float64 r = Some b ->
  b <> 0%Z ->
  evaluator.evalFloatInfixExpression fuel "%" l r
  = Val (Float (float64_of_int64 (Z.rem a b))).
Proof.
  intros Hz Ha Hb Hne. cbn [evaluator.evalFloatInfixExpression String.eqb Ascii.eqb
                             Bool.eqb].
  change (String.eqb "%" "+") with false. change (String.eqb "%" "-") with false.
  change (String.eqb "%" "*") with false. change (String.eqb "%" "/") with false.
  change (String.eqb "%" "%") with true. cbn iota.
  rewrite Hz. unfold evaluator.floatModulo. rewrite Hb, Ha.
  destruct b; [congruence | reflexivity | reflexivity].
Qed.

Lemma floatModulo_zero (fuel : nat) (l r : float64) :
  SFeqb r fzero = true ->
  evaluator.evalFloatInfixExpression fuel "%" l r = Val (Error "módulo por cero").
Proof.
  intros Hz.
  change (evaluator.evalFloatInfixExpression fuel "%" l r)
    with (if SFeqb r fzero then Val (evaluator.newError "módulo por cero")
          else evaluator.floatModulo l r).
  rewrite Hz. reflexivity.
Qed.

(** C7, at the failing input. The divisor [0.5] is not zero, so the guard
    against a zero divisor lets it through; truncated to an integer it is
    zero, and the integer remainder panics: [5.0 % 0.5] does not return. *)
Theorem float_modulo_by_fraction_panics :
  SFeqb (S754_finite false 4503599627370496 (-53)) fzero = false
  /\ int64_of_float64 (S754_finite false 4503599627370496 (-53)) = Some 0%Z
  /\ main.run 10 "5.0 % 0.5" = Fail (Panic "runtime error: integer divide by zero").
Proof. repeat split; vm_compute; reflexivity. Qed.

(** ** Truthiness (C8) *)

Lemma SFeqb_fzero (v : float64) :
  SFeqb v fzero = match v with
                  | S754_zero _ => true
                  | _ => false
                  end.
Proof. destruct v as [s | s | | s m e]; try destruct s; reflexivity. Qed.

(** On the values the evaluator itself makes, whose booleans and nulo are
    its own three singletons, [isTruthy] is the truthiness of the
    specification. *)
Lemma isTruthy_on_evaluator_values (v : Object) :
  v <> Nil ->
  (forall p b, v = Boolean p b -> v = evaluator.TRUE \/ v = evaluator.FALSE) ->
  (forall p, v = Null p -> v = evaluator.NULL) ->
  evaluator.isTruthy v = Some (negb (props.specFalsy v)).
Proof.
  intros Hnil Hb Hn.
  destruct v as [| i | f | p b | p | p w | msg | f | s | p fn | p es | p ps | p | p];
    try congruence; try reflexivity.
  - change (evaluator.isTruthy (Float f)) with (Some (negb (SFeqb f fzero))).
    rewrite SFeqb_fzero. destruct f; reflexivity.
  - destruct (Hb p b eq_refl) as [H | H]; inversion H; reflexivity.
  - rewrite (Hn p eq_refl). reflexivity.
Qed.

(** C8, at the failing input. [contiene('abc', 'z')] returns the standard
    library's own false singleton; [isTruthy] compares a condition with the
    evaluator's singletons by address, finds none, and counts the value as
    true: the consequence of the [si] runs. *)
Theorem false_from_stdlib_is_truthy :
  stdlib.contiene [String "abc"; String "z"] = Val stdlib.FALSE
  /\ props.specFalsy stdlib.FALSE = true
  /\ evaluator.isTruthy stdlib.FALSE = Some true
  /\ exists st : State,
       main.runWithStdlib 10 "si (contiene('abc', 'z')) { 1 } sino { 2 }"
       = Val (Integer 1, st).
Proof.
  repeat split. eexists. vm_compute. reflexivity.
Qed.

(** ** The prefix operator [!] (C10) *)

Lemma evalBangOperatorExpression_TRUE (v : Object) :
  props.consistent v = true ->
  evaluator.evalBangOperatorExpression v = evaluator.TRUE ->
  v = evaluator.FALSE \/ v = evaluator.NULL.
Proof.
  intros Hc H. destruct v; try discriminate H.
  - destruct p as [| [| p]]; try discriminate H.
    destruct Value; [discriminate Hc | left; reflexivity].
  - destruct p as [| [| [| p]]]; try discriminate H. right; reflexivity.
Qed.

(** C10. For every value [v] (one in which the address of a singleton
    holds that singleton's value): [!v] is verdad only when [v] is the
    boolean falso or nulo, and it is falso for every value that is
    neither.  In particular [!] of Integer 0, of Float 0 and of the empty
    string is falso although each of them is falsy as a condition, so [!v]
    is not the negation of the truthiness of [v]; and the program [!0]
    evaluates to falso. *)
Theorem bang_operator (v : Object) :
  props.consistent v = true ->
  (evaluator.evalBangOperatorExpression v = evaluator.TRUE ->
   props.isFalso v = true \/ props.isNulo v = true)
  /\ (props.isFalso v = false -> props.isNulo v = false ->
      evaluator.evalBangOperatorExpression v = evaluator.FALSE)
  /\ (forall zero : Object,
         zero = Integer 0 \/ zero = Float fzero \/ zero = String EmptyString ->
         evaluator.evalBangOperatorExpression zero = evaluator.FALSE
         /\ evaluator.isTruthy zero = Some false)
  /\ (exists st : State, main.run 10 "!0" = Val (evaluator.FALSE, st)).
Proof.
  intros Hc. split; [| split; [| split]].
  - intros H. destruct (evalBangOperatorExpression_TRUE v Hc H) as [-> | ->];
      [left | right]; reflexivity.
  - intros Hf Hn. destruct v; try reflexivity; try discriminate Hn.
    destruct p as [| [| p]]; try reflexivity.
    destruct Value; [discriminate Hc | discriminate Hf].
  - intros zero [-> | [-> | ->]]; split; reflexivity.
  - eexists. vm_compute. reflexivity.
Qed.

Lemma bang_operator_witness :
  (evaluator.evalBangOperatorExpression evaluator.NULL = evaluator.TRUE ->
   props.isFalso evaluator.NULL = true \/ props.isNulo evaluator.NULL = true)
  /\ evaluator.evalBangOperatorExpression (Integer 5) = evaluator.FALSE.
Proof.
  split.
  - apply (proj1 (bang_operator evaluator.NULL eq_refl)).
  - apply (proj1 (proj2 (bang_operator (Integer 5) eq_refl))); reflexivity.
Defined.

(** ** The logical operators [y] and [o] (C1) *)

(** C1, as stated, fails: in [verdad o (1/0)] the right operand is
    evaluated and its Error is the result, not verdad; in
    [verdad o mostrar(1)] the result is verdad but [mostrar] has printed;
    and likewise for [falso y ...]. *)
Lemma logical_operators_evaluate_right_operand :
  (exists st : State,
      main.run 10 "verdad o (1/0)" = Val (Error "división por cero", st))
  /\ (exists st : State,
         main.run 10 "verdad o mostrar(1)" = Val (evaluator.TRUE, st)
         /\ output st = [Integer 1])
  /\ (exists st : State,
         main.run 10 "falso y (1/0)" = Val (Error "división por cero", st))
  /\ (exists st : State,
         main.run 10 "falso y mostrar(1)" = Val (evaluator.FALSE, st)
         /\ output st = [Integer 1]).
Proof.
  repeat split; eexists; vm_compute; repeat split; reflexivity.
Qed.

Lemma reachesLogical_rest (fuel : nat) (operator : string) (l r : Object) :
  props.reachesLogical l r = true ->
  evaluator.evalInfixExpression fuel operator l r
  = evaluator.evalInfixExpression_rest operator l r.
Proof. intros H. destruct l, r; try discriminate H; reflexivity. Qed.

(** C1, amended. The operands of [y] and [o] are evaluated left to right
    and both are evaluated, unless the left one is an Error, which is the
    result at once: a failure or an Error of the right operand is the
    outcome of the whole expression whatever the left operand is.  When
    neither is an Error and the pair is not two numbers or two strings,
    [y] returns the left operand if it is falsy and the right one
    otherwise, [o] returns the left operand if it is truthy and the right
    one otherwise: an operand itself, not a boolean made from it. *)
Theorem logical_operators_eager (fuel : nat) (tok : lexer.Token)
    (L R : parser.Expression) (operator : string) (env : ptr) (st st1 : State)
    (l : Object) :
  operator = "y" \/ operator = "o" ->
  evaluator.Eval_ fuel (parser.NodeExpression L) env st = Val (l, st1) ->
  let result := evaluator.Eval_ (S fuel)
                  (parser.NodeExpression (parser.InfixExpression tok L operator R))
                  env st in
  (evaluator.isError l = true -> result = Val (l, st1))
  /\ (evaluator.isError l = false ->
      (forall f : Failure,
          evaluator.Eval_ fuel (parser.NodeExpression R) env st1 = Fail f ->
          result = Fail f)
      /\ (forall (r : Object) (st2 : State),
             evaluator.Eval_ fuel (parser.NodeExpression R) env st1 = Val (r, st2) ->
             (evaluator.isError r = true -> result = Val (r, st2))
             /\ (evaluator.isError r = false ->
                 props.reachesLogical l r = true ->
                 forall b : bool,
                   evaluator.isTruthy l = Some b ->
                   result = Val (if String.eqb operator "y"
                                 then (if b then r else l)
                                 else (if b then l else r), st2)))).
Proof.
  intros Hop HL result. subst result. rewrite Eval_S. cbn [evaluator.Eval_body].
  unfold evaluator.evalExpr. split.
  - intros El. apply checked_error; assumption.
  - intros El. rewrite (checked_val _ _ st st1 l) by assumption. split.
    + intros f HR. unfold evaluator.checked. apply bind_fail. exact HR.
    + intros r st2 HR. split.
      * intros Er. apply checked_error; assumption.
      * intros Er Hreach b Hb.
        rewrite (checked_val _ _ st1 st2 r) by assumption.
        rewrite (reachesLogical_rest fuel operator l r Hreach).
        unfold evaluator.evalInfixExpression_rest.
        destruct Hop as [-> | ->]; cbn [String.eqb Ascii.eqb Bool.eqb];
          unfold evaluator.evalLogicalAndOperator, evaluator.evalLogicalOrOperator,
                 evaluator.truthy;
          rewrite Hb; destruct b; reflexivity.
Qed.

Lemma logical_operators_eager_witness :
  evaluator.Eval_ 2 (parser.NodeExpression
     (parser.InfixExpression props.tok0 (parser.BooleanLiteral props.tok0 true) "o"
        (parser.NullLiteral props.tok0))) 0 main.start
  = Val (evaluator.TRUE, main.start).
Proof.
  apply (proj2 (proj2 (proj2 (logical_operators_eager 1 props.tok0
           (parser.BooleanLiteral props.tok0 true) (parser.NullLiteral props.tok0)
           "o" 0 main.start main.start evaluator.TRUE (or_intror eq_refl) eq_refl)
           eq_refl) evaluator.NULL main.start eq_refl) eq_refl eq_refl true eq_refl).
Defined.

(** ** The walrus declaration (C2) *)

Lemma errors_nextToken (p : parser.Parser) :
  parser.errors (parser.nextToken p) = parser.errors p.
Proof. unfold parser.nextToken. destruct (lexer.NextToken _). reflexivity. Qed.

(** A statement that begins at a [:=] token is an expression statement
    without an expression, and a diagnostic: no prefix handler is
    registered for that token. *)
Lemma parseStatement_DECLARE (fuel : nat) (p : parser.Parser) :
  lexer.Type_ (parser.curToken p) = lexer.DECLARE ->
  exists p' : parser.Parser,
    parser.parseStatement (S (S fuel)) p
    = parser.Ok (parser.ExpressionStatement (parser.curToken p) parser.NilExpression) p'
    /\ parser.errors p'
       = (parser.errors p
          ++ [(parser.position_prefix (lexer.Line (parser.curToken p))
                                      (lexer.Column (parser.curToken p))
               ++ "no hay función de análisis de prefijo para :=")%string])%list.
Proof.
  intros Ht. cbn [parser.parseStatement parser.parseExpression].
  unfold parser.parseStatement_body, parser.curTokenIs. rewrite Ht.
  cbn [String.eqb Ascii.eqb Bool.eqb lexer.DECLARE lexer.VAR lexer.RETURN].
  unfold parser.parseExpressionStatement, parser.parseExpression_body. rewrite Ht.
  change (parser.prefixParseFns !! lexer.DECLARE) with (@None parser.prefixParseFn).
  cbn [parser.bind].
  destruct (parser.peekTokenIs _ lexer.SEMICOLON); eexists;
    (split; [reflexivity | rewrite ?errors_nextToken; reflexivity]).
Qed.

(** C2, at the failing input. [x := 5] is not parsed as a declaration: the
    parser yields three expression statements, the middle one empty, and
    reports that no prefix handler exists for [:=]; [guarda x = 5] yields
    the one VarDecl node and no diagnostic. *)
Theorem walrus_is_not_a_declaration :
  (exists p : parser.Parser,
      parser.ParseProgram 10 (parser.New (lexer.New "x := 5"))
      = parser.Ok
          (parser.mkProgram
             [parser.ExpressionStatement (lexer.mkToken "IDENT" "x" 1 1)
                (parser.Ident (parser.mkIdentifier (lexer.mkToken "IDENT" "x" 1 1) "x"));
              parser.ExpressionStatement (lexer.mkToken ":=" ":=" 0 0)
                parser.NilExpression;
              parser.ExpressionStatement (lexer.mkToken "NUM" "5" 1 6)
                (parser.IntegerLiteral (lexer.mkToken "NUM" "5" 1 6) 5)]) p
      /\ parser.Errors p
         = ["línea 0, columna 0: no hay función de análisis de prefijo para :="])
  /\ (exists p : parser.Parser,
         parser.ParseProgram 10 (parser.New (lexer.New "guarda x = 5"))
         = parser.Ok
             (parser.mkProgram
                [parser.Let
                   (parser.mkLetStatement (lexer.mkToken "VAR" "guarda" 1 1)
                      (parser.mkIdentifier (lexer.mkToken "IDENT" "x" 1 8) "x")
                      (parser.IntegerLiteral (lexer.mkToken "NUM" "5" 1 12) 5))]) p
         /\ parser.Errors p = []).
Proof.
  split; eexists; split; vm_compute; reflexivity.
Qed.

(** ** Construction (C9) *)

Lemma soleError_None (vals : list Object) :
  Forall (fun v => evaluator.isError v = false) vals ->
  evaluator.soleError vals = None.
Proof.
  intros H. destruct vals as [| v [| w vals]]; try reflexivity.
  inversion H as [| ? ? Hv _]; subst. cbn. rewrite Hv. reflexivity.
Qed.

Lemma soleError_Some (vals : list Object) (err : Object) :
  evaluator.soleError vals = Some err -> vals = [err] /\ evaluator.isError err = true.
Proof.
  destruct vals as [| v [| w vals]]; try discriminate. cbn.
  destruct (evaluator.isError v) eqn:E; [| discriminate].
  intros [= <-]. split; [reflexivity | exact E].
Qed.

Lemma newInstance_returns (c : ptr) (cl : Class) (env : ptr) (st : State) :
  exists (i : ptr) (st' : State), evaluator.newInstance c cl env st = Val (i, st').
Proof. eexists _, _. reflexivity. Qed.

Lemma newConstructorEnv_returns (i : ptr) (ctor : Function) (vals : list Object)
    (st : State) :
  exists (e : ptr) (st' : State), evaluator.newConstructorEnv i ctor vals st = Val (e, st').
Proof. eexists _, _. reflexivity. Qed.

(** The instance is returned whatever the body of [crear] evaluates to. *)
Lemma evalNewExpression_constructor_result_dropped (fuel : nat)
    (C : parser.Expression) (args : list parser.Expression) (env : ptr)
    (st st1 st2 st3 st4 st5 : State) (c i cenv : ptr) (cl : Class) (ctor : Function)
    (vals : list Object) (r : Object) :
  run.Eval_ fuel (parser.NodeExpression C) env st = Val (ClassPtr c, st1) ->
  classes st1 !! c = Some cl ->
  Methods cl !! "crear" = Some ctor ->
  evaluator.newInstance c cl env st1 = Val (i, st2) ->
  run.evalExpressions fuel args env st2 = Val (vals, st3) ->
  Forall (fun v => evaluator.isError v = false) vals ->
  evaluator.newConstructorEnv i ctor vals st3 = Val (cenv, st4) ->
  run.Eval_ fuel (parser.NodeStatement (parser.Block (Body ctor))) cenv st4 = Val (r, st5) ->
  run.evalNewExpression fuel C args env st = Val (InstancePtr i, st5).
Proof.
  intros HC Hcl Hctor Hi Hargs Hvals Hcenv Hbody.
  unfold run.evalNewExpression, evaluator.evalNewExpression, evaluator.evalExpr.
  rewrite (checked_val _ _ st st1 (ClassPtr c)) by (exact HC || reflexivity).
  rewrite Hcl. rewrite (bind_val _ _ st1 st2 i Hi). rewrite Hctor.
  unfold evaluator.callConstructor.
  rewrite (bind_val _ _ st2 st3 vals Hargs).
  rewrite (soleError_None vals Hvals).
  rewrite (bind_val _ _ st3 st4 cenv Hcenv).
  unfold evaluator.evalBlock. rewrite (bind_val _ _ st4 st5 r Hbody).
  reflexivity.
Qed.

(** An Error out of [nuevo] is the Error of the class expression, the
    complaint that the callee is not a class, or the Error of an
    argument. *)
Lemma evalNewExpression_error_origin (fuel : nat)
    (C : parser.Expression) (args : list parser.Expression) (env : ptr)
    (st st' : State) (msg : string) :
  run.evalNewExpression fuel C args env st = Val (Error msg, st') ->
  run.Eval_ fuel (parser.NodeExpression C) env st = Val (Error msg, st')
  \/ (exists (v : Object) (t : string),
         run.Eval_ fuel (parser.NodeExpression C) env st = Val (v, st')
         /\ Type_ v = Some t /\ t <> CLASS_OBJ
         /\ msg = "no es una clase: " ++ t)
  \/ (exists (c i : ptr) (cl : Class) (st1 st2 : State),
         run.Eval_ fuel (parser.NodeExpression C) env st = Val (ClassPtr c, st1)
         /\ classes st1 !! c = Some cl
         /\ evaluator.newInstance c cl env st1 = Val (i, st2)
         /\ run.evalExpressions fuel args env st2 = Val ([Error msg], st')).
Proof.
  unfold run.evalNewExpression, evaluator.evalNewExpression, evaluator.evalExpr,
         evaluator.checked, bind.
  destruct (run.Eval_ fuel (parser.NodeExpression C) env st) as [[v st1] | f] eqn:HC;
    [| discriminate].
  destruct (evaluator.isError v) eqn:Ev.
  - intros [= -> ->]. left. reflexivity.
  - destruct v as [| n | x | q b | q | q w | m | fn | s | q fn | q es | q ps | p | q];
      try discriminate Ev;
      try (cbn; intros [= <- <-]; right; left; eexists _, _;
           split; [reflexivity | split; [reflexivity | split; [discriminate | reflexivity]]]);
      try (cbn; discriminate).
    destruct (classes st1 !! p) as [cl |] eqn:Hcl; [| discriminate].
    destruct (newInstance_returns p cl env st1) as (i & st2 & Hi).
    rewrite Hi. destruct (Methods cl !! "crear") as [ctor |]; [| discriminate].
    unfold evaluator.callConstructor, bind.
    destruct (evaluator.evalExpressions _ args env st2) as [[vals st3] | f] eqn:Hargs;
      [| discriminate].
    destruct (evaluator.soleError vals) as [err |] eqn:Hsole.
    + intros [= -> ->]. apply soleError_Some in Hsole as [-> _].
      right; right. exists p, i, cl, st1, st2. repeat split; assumption.
    + destruct (newConstructorEnv_returns i ctor vals st3) as (cenv & st4 & Hcenv).
      rewrite Hcenv. unfold evaluator.evalBlock.
      destruct (run.Eval_ fuel _ cenv st4) as [[r st5] | f]; discriminate.
Qed.

(** C9. For a class that defines [crear] and arguments that evaluate
    without error, [nuevo C(args)] returns the new Instance whatever the
    constructor body evaluates to, an Error included; and an Error out of
    [nuevo] comes from the class expression, from a callee that is not a
    class, or from an argument. *)
Theorem construction_drops_constructor_result (fuel : nat) (tok : lexer.Token)
    (C : parser.Expression) (args : list parser.Expression) (env : ptr) (st : State) :
  (forall (st1 st2 st3 st4 st5 : State) (c i cenv : ptr) (cl : Class) (ctor : Function)
          (vals : list Object) (r : Object),
      run.Eval_ fuel (parser.NodeExpression C) env st = Val (ClassPtr c, st1) ->
      classes st1 !! c = Some cl ->
      Methods cl !! "crear" = Some ctor ->
      evaluator.newInstance c cl env st1 = Val (i, st2) ->
      run.evalExpressions fuel args env st2 = Val (vals, st3) ->
      Forall (fun v => evaluator.isError v = false) vals ->
      evaluator.newConstructorEnv i ctor vals st3 = Val (cenv, st4) ->
      run.Eval_ fuel (parser.NodeStatement (parser.Block (Body ctor))) cenv st4
      = Val (r, st5) ->
      run.Eval_ (S fuel) (parser.NodeExpression (parser.NewExpression tok C args)) env st
      = Val (InstancePtr i, st5))
  /\ (forall (msg : string) (st' : State),
         run.Eval_ (S fuel) (parser.NodeExpression (parser.NewExpression tok C args)) env st
         = Val (Error msg, st') ->
         run.Eval_ fuel (parser.NodeExpression C) env st = Val (Error msg, st')
         \/ (exists (v : Object) (t : string),
                run.Eval_ fuel (parser.NodeExpression C) env st = Val (v, st')
                /\ Type_ v = Some t /\ t <> CLASS_OBJ
                /\ msg = "no es una clase: " ++ t)
         \/ (exists (c i : ptr) (cl : Class) (st1 st2 : State),
                run.Eval_ fuel (parser.NodeExpression C) env st = Val (ClassPtr c, st1)
                /\ classes st1 !! c = Some cl
                /\ evaluator.newInstance c cl env st1 = Val (i, st2)
                /\ run.evalExpressions fuel args env st2 = Val ([Error msg], st'))).
Proof.
  split.
  - intros. eapply evalNewExpression_constructor_result_dropped; eassumption.
  - intros msg st'. apply evalNewExpression_error_origin.
Qed.

Lemma construction_drops_constructor_result_witness :
  exists (i : ptr) (st' : State),
    run.Eval_ 6 (parser.NodeExpression run.nuevoC1) 8 run.afterFailingConstructorClass
    = Val (InstancePtr i, st')
    /\ run.Eval_ 5 (parser.NodeExpression
                      (parser.InfixExpression (lexer.mkToken "/" "/" 0 0)
                         (parser.IntegerLiteral (lexer.mkToken "NUM" "1" 1 23) 1) "/"
                         (parser.IntegerLiteral (lexer.mkToken "NUM" "0" 1 25) 0)))
                 15 st'
       = Val (Error "división por cero", st').
Proof.
  eexists _, _. split.
  - eapply (proj1 (construction_drops_constructor_result 5 props.tok0
                     (parser.Ident (parser.mkIdentifier props.tok0 "C"))
                     [parser.IntegerLiteral props.tok0 1] 8
                     run.afterFailingConstructorClass)).
    + vm_compute. reflexivity.
    + vm_compute. reflexivity.
    + vm_compute. reflexivity.
    + vm_compute. reflexivity.
    + vm_compute. reflexivity.
    + repeat constructor.
    + vm_compute. reflexivity.
    + vm_compute. reflexivity.
  - vm_compute. reflexivity.
Defined.

(** ** The receiver [esto] (C4) *)

Section Frame.
Import scope.

Lemma extends_refl (env : ptr) (st : State) : wellFormed st -> extends env st st.
Proof.
  intros Hwf. repeat split; auto.
  intros i inst Hi Hle. destruct (Hwf i inst Hi) as [Hlt _]. lia.
Qed.

Lemma extends_trans (env : ptr) (st st1 st2 : State) :
  extends env st st1 -> extends env st1 st2 -> extends env st st2.
Proof.
  intros (Hn1 & He1 & Hi1 & Hnew1) (Hn2 & He2 & Hi2 & Hnew2). repeat split.
  - lia.
  - intros e Hlt Hne. rewrite He2 by (lia || assumption). apply He1; assumption.
  - intros i Hlt. rewrite Hi2 by lia. apply Hi1; assumption.
  - intros i inst Hi Hle. destruct (Nat.lt_ge_cases i (next st1)) as [Hlt | Hge].
    + rewrite Hi2 in Hi by assumption. eapply Hnew1; eassumption.
    + specialize (Hnew2 i inst Hi Hge). lia.
Qed.

Lemma evaluationEnv_extends (env : ptr) (st st' : State) :
  evaluationEnv env st -> extends env st st' -> evaluationEnv env st'.
Proof.
  intros [Hlt Hne] (Hn & _ & Hi & Hnew). split; [lia |].
  intros i inst Hinst. destruct (Nat.lt_ge_cases i (next st)) as [Hi' | Hi'].
  - rewrite Hi in Hinst by assumption. eapply Hne; eassumption.
  - specialize (Hnew i inst Hinst Hi'). lia.
Qed.

Lemma preserves_ret {A : Type} (env : ptr) (a : A) : preserves env (ret a).
Proof.
  intros st st' a' Hwf _ [= _ <-]. split; [assumption | apply extends_refl; assumption].
Qed.

Lemma preserves_lift {A : Type} (env : ptr) (r : Result A) : preserves env (lift r).
Proof.
  intros st st' a Hwf _ H. unfold lift in H. destruct r; [| discriminate].
  injection H as _ <-. split; [assumption | apply extends_refl; assumption].
Qed.

Lemma preserves_bind {A B : Type} (env : ptr) (m : M A) (k : A -> M B) :
  preserves env m -> (forall a, preserves env (k a)) -> preserves env (bind m k).
Proof.
  intros Hm Hk st st' b Hwf Henv H. unfold bind in H.
  destruct (m st) as [[a st1] |] eqn:E; [| discriminate].
  destruct (Hm st st1 a Hwf Henv E) as [Hwf1 Hext1].
  destruct (Hk a st1 st' b Hwf1 (evaluationEnv_extends _ _ _ Henv Hext1) H)
    as [Hwf2 Hext2].
  split; [assumption | eapply extends_trans; eassumption].
Qed.

Lemma preserves_checked (env : ptr) (m : M Object) (k : Object -> M Object) :
  preserves env m -> (forall x, preserves env (k x)) ->
  preserves env (evaluator.checked m k).
Proof.
  intros Hm Hk. unfold evaluator.checked. apply preserves_bind; [assumption |].
  intros x. destruct (evaluator.isError x); [apply preserves_ret | apply Hk].
Qed.

Lemma preserves_modify (env : ptr) (f : State -> State) :
  touchesOnly env f -> preserves env (modify f).
Proof.
  intros Hf st st' [] Hwf [Hlt Hne] [= <-].
  destruct (Hf st) as (Hn & Hi & He). split.
  - intros i inst Hinst. rewrite Hi in Hinst.
    destruct (Hwf i inst Hinst) as (H1 & H2 & E & HE & Hesto).
    rewrite Hn. repeat split; try assumption.
    exists E. split; [| assumption]. rewrite He; [assumption |].
    eapply Hne; eassumption.
  - repeat split.
    + lia.
    + intros e _ Hne'. apply He. assumption.
    + intros i _. rewrite Hi. reflexivity.
    + intros i inst Hinst Hle. rewrite Hi in Hinst.
      destruct (Hwf i inst Hinst) as [H1 _]. lia.
Qed.

Lemma preserves_alloc (env : ptr) : preserves env (step alloc).
Proof.
  intros st st' p Hwf Henv [= _ <-]. split.
  - intros i inst Hinst. cbn in Hinst.
    destruct (Hwf i inst Hinst) as (H1 & H2 & H3). cbn. repeat split; try lia.
    exact H3.
  - repeat split; cbn; auto.
    intros i inst Hinst Hle. destruct (Hwf i inst Hinst) as [H1 _]. lia.
Qed.

(** Allocating an environment and then evaluating in it. *)
Lemma preserves_allocatesEnv {A : Type} (env : ptr) (m : M ptr) (k : ptr -> M A) :
  allocatesEnv m -> (forall e, preserves e (k e)) -> preserves env (bind m k).
Proof.
  intros Hm Hk st st' a Hwf [Hlt Hne] H. unfold bind in H.
  destruct (m st) as [[e st1] |] eqn:E; [| discriminate].
  destruct (Hm st st1 e E) as (-> & Hn & Hi & He).
  assert (Hwf1 : wellFormed st1).
  { intros i inst Hinst. rewrite Hi in Hinst.
    destruct (Hwf i inst Hinst) as (H1 & H2 & E' & HE & Hesto).
    rewrite Hn. repeat split; try lia.
    exists E'. split; [| assumption]. rewrite He; [assumption | lia]. }
  assert (Henv1 : evaluationEnv (next st) st1).
  { split; [lia |]. intros i inst Hinst. rewrite Hi in Hinst.
    destruct (Hwf i inst Hinst) as (_ & H2 & _). lia. }
  destruct (Hk (next st) st1 st' a Hwf1 Henv1 H) as [Hwf2 (Hn2 & He2 & Hi2 & Hnew2)].
  split; [assumption |]. repeat split.
  - lia.
  - intros e Hlte Hnee. rewrite He2 by lia. apply He. lia.
  - intros i Hlti. rewrite Hi2 by lia. rewrite Hi. reflexivity.
  - intros i inst Hinst Hle. destruct (Nat.eq_dec i (next st)) as [-> | Hne'].
    + rewrite Hi2 in Hinst by lia. rewrite Hi in Hinst.
      destruct (Hwf _ _ Hinst) as [H1 _]. lia.
    + assert (Hge : next st1 <= i) by lia. specialize (Hnew2 i inst Hinst Hge). lia.
Qed.

(** *** State changes *)

Lemma touchesOnly_Set (e : ptr) (name : string) (val : Object) :
  touchesOnly e (Set_ e name val).
Proof.
  intros st. repeat split. intros e' Hne. cbn. apply lookup_alter_ne. congruence.
Qed.

Lemma touchesOnly_print (e : ptr) (o : Object) : touchesOnly e (print o).
Proof. intros st. repeat split. Qed.

Lemma touchesOnly_set_classes (e : ptr) (f : State -> gmap ptr Class) :
  touchesOnly e (fun st => set_classes (f st) st).
Proof. intros st. repeat split. Qed.

Lemma touchesOnly_compose (e : ptr) (f g : State -> State) :
  touchesOnly e f -> touchesOnly e g -> touchesOnly e (fun st => g (f st)).
Proof.
  intros Hf Hg st. destruct (Hf st) as (F1 & F2 & F3).
  destruct (Hg (f st)) as (G1 & G2 & G3). repeat split; try congruence.
  intros e' Hne. rewrite G3, F3 by assumption. reflexivity.
Qed.

Lemma touchesOnly_bindParameters (params : list parser.Identifier) (args : list Object)
    (e : ptr) :
  touchesOnly e (evaluator.bindParameters params args e).
Proof.
  revert args. induction params as [| param params IH]; intros args.
  - intros st. repeat split.
  - destruct args as [| arg args]; cbn [evaluator.bindParameters].
    + apply (touchesOnly_compose e (Set_ e _ _) (evaluator.bindParameters params [] e));
        [apply touchesOnly_Set | apply IH].
    + apply (touchesOnly_compose e (Set_ e _ _) (evaluator.bindParameters params args e));
        [apply touchesOnly_Set | apply IH].
Qed.

Lemma touchesOnly_bindConstructorParameters (params : list parser.Identifier)
    (args : list Object) (e : ptr) :
  touchesOnly e (evaluator.bindConstructorParameters params args e).
Proof.
  revert args. induction params as [| param params IH]; intros args.
  - intros st. repeat split.
  - destruct args as [| arg args]; cbn [evaluator.bindConstructorParameters].
    + intros st. repeat split.
    + apply (touchesOnly_compose e (Set_ e _ _)
               (evaluator.bindConstructorParameters params args e));
        [apply touchesOnly_Set | apply IH].
Qed.

Lemma allocatesEnv_NewEnclosedEnvironment (o : ptr) :
  allocatesEnv (step (NewEnclosedEnvironment o)).
Proof.
  intros st st' e [= <- <-]. cbn. repeat split.
  intros e' Hne. apply lookup_insert_ne. congruence.
Qed.

(** An environment is allocated, then names are bound in it. *)
Lemma allocatesEnv_then (o : ptr) (f : ptr -> State -> State) :
  (forall e, touchesOnly e (f e)) ->
  allocatesEnv (bind (step (NewEnclosedEnvironment o))
                     (fun e => bind (modify (f e)) (fun _ => ret e))).
Proof.
  intros Hf st st' e [= <- <-].
  destruct (Hf (next st) (snd (NewEnclosedEnvironment o st))) as (F1 & F2 & F3).
  cbn in *. repeat split; try assumption.
  intros e' Hne. rewrite F3 by assumption. apply lookup_insert_ne. congruence.
Qed.

Lemma allocatesEnv_extendFunctionEnv (fn : Function) (args : list Object) :
  allocatesEnv (evaluator.extendFunctionEnv fn args).
Proof.
  apply (allocatesEnv_then (Env fn)
           (fun e => evaluator.bindParameters (Parameters fn) args e)).
  intros e. apply touchesOnly_bindParameters.
Qed.

Lemma allocatesEnv_newConstructorEnv (i : ptr) (ctor : Function) (args : list Object) :
  allocatesEnv (evaluator.newConstructorEnv i ctor args).
Proof.
  intros st st' e H.
  apply (allocatesEnv_then (Env ctor)
           (fun e st => evaluator.bindConstructorParameters (Parameters ctor) args e
                          (Set_ e "esto" (InstancePtr i) st))).
  - intros e'. apply (touchesOnly_compose e' (Set_ e' _ _));
      [apply touchesOnly_Set | apply touchesOnly_bindConstructorParameters].
  - exact H.
Qed.

(** *** Construction installs [esto] *)

Lemma newInstance_result (c : ptr) (cl : Class) (env : ptr) (st : State) :
  evaluator.newInstance c cl env st
  = Val (S (next st),
         mkState
           (<[next st := mkEnvironment {["esto" := InstancePtr (S (next st))]} (Some env)]>
              (envs st))
           (classes st)
           (<[S (next st) := mkInstance c (Class_Properties cl ∪ ∅) (next st)]>
              (instances st))
           (S (S (next st))) (output st)).
Proof.
  unfold evaluator.newInstance, bind, step, modify, ret.
  cbn. unfold set_instances, Set_, set_envs. cbn. f_equal. f_equal. f_equal.
  - rewrite alter_insert_eq. cbn. rewrite insert_empty. reflexivity.
  - rewrite alter_insert_eq. reflexivity.
Qed.

Lemma preserves_newInstance (env : ptr) (c : ptr) (cl : Class) (o : ptr) :
  preserves env (evaluator.newInstance c cl o).
Proof.
  intros st st' i Hwf [Hlt Hne] H. rewrite newInstance_result in H.
  injection H as <- <-. split.
  - intros j inst Hinst. cbn in Hinst. cbn [next].
    destruct (Nat.eq_dec j (S (next st))) as [-> | Hj].
    + rewrite lookup_insert_eq in Hinst. injection Hinst as <-. cbn.
      repeat split; try lia.
      eexists. cbn. rewrite lookup_insert_eq. split; [reflexivity |].
      apply lookup_singleton_eq.
    + rewrite lookup_insert_ne in Hinst by congruence.
      destruct (Hwf j inst Hinst) as (H1 & H2 & E & HE & Hesto).
      repeat split; try lia.
      exists E. cbn. rewrite lookup_insert_ne by lia. split; assumption.
  - repeat split; cbn.
    + lia.
    + intros e He _. apply lookup_insert_ne. lia.
    + intros j Hj. apply lookup_insert_ne. lia.
    + intros j inst Hinst Hle.
      destruct (Nat.eq_dec j (S (next st))) as [-> | Hj].
      * rewrite lookup_insert_eq in Hinst. injection Hinst as <-. cbn. lia.
      * rewrite lookup_insert_ne in Hinst by congruence.
        destruct (Hwf j inst Hinst) as [H1 _]. lia.
Qed.

End Frame.

Section Invariant.
Import scope.

Lemma preserves_of_allocatesEnv (env : ptr) (m : M ptr) :
  allocatesEnv m -> preserves env m.
Proof.
  intros Hm st st' e Hwf Henv H.
  apply (preserves_allocatesEnv env m ret Hm (fun e => preserves_ret e e) st st' e Hwf Henv).
  unfold bind. rewrite H. reflexivity.
Qed.

Lemma preserves_mostrar_loop (env : ptr) (args : list Object) :
  preserves env (evaluator.mostrar_loop args).
Proof.
  induction args as [| arg args IH]; cbn [evaluator.mostrar_loop].
  - apply preserves_ret.
  - destruct (evaluator.Inspectable arg); [| apply preserves_lift].
    apply preserves_bind; [| intros _; exact IH].
    apply preserves_modify, touchesOnly_print.
Qed.

Lemma preserves_callBuiltin (env : ptr) (fn : BuiltinFunction) (args : list Object) :
  preserves env (evaluator.callBuiltin fn args).
Proof.
  destruct fn; cbn [evaluator.callBuiltin]; try apply preserves_lift.
  unfold evaluator.mostrar. apply preserves_bind; [apply preserves_mostrar_loop |].
  intros _. apply preserves_ret.
Qed.

Lemma preserves_evalIdentifier (env : ptr) (name : string) (e : ptr) :
  preserves env (evaluator.evalIdentifier name e).
Proof.
  intros st st' a Hwf Henv H. unfold evaluator.evalIdentifier in H.
  assert (st' = st) as ->.
  { destruct (Get e name st); [congruence |].
    destruct (evaluator.builtins !! name); congruence. }
  split; [assumption | apply extends_refl; assumption].
Qed.

Lemma preserves_bindMethod (env : ptr) (obj : ptr) (inst : Instance) (method : Function) :
  preserves env (evaluator.bindMethod obj inst method).
Proof.
  unfold evaluator.bindMethod. apply preserves_bind; [apply preserves_alloc |].
  intros p. apply preserves_allocatesEnv; [apply allocatesEnv_NewEnclosedEnvironment |].
  intros e. apply preserves_bind; [apply preserves_modify, touchesOnly_Set |].
  intros _. apply preserves_ret.
Qed.

Lemma preserves_evalDotExpression (env : ptr) (obj : Object) (property : string) :
  preserves env (evaluator.evalDotExpression obj property).
Proof.
  destruct obj; cbn [evaluator.evalDotExpression];
    try (apply preserves_bind; [apply preserves_lift | intros t; apply preserves_ret]).
  - destruct (String.eqb property "longitud"); apply preserves_ret.
  - destruct (String.eqb property "longitud"); apply preserves_ret.
  - intros st st' a Hwf Henv H.
    destruct (instances st !! p) as [inst |]; [| discriminate].
    destruct (Properties inst !! property).
    { injection H as _ <-. split; [assumption | apply extends_refl; assumption]. }
    destruct (classes st !! Instance_Class inst) as [class |]; [| discriminate].
    destruct (Methods class !! property) as [method |].
    + exact (preserves_bindMethod env p inst method st st' a Hwf Henv H).
    + injection H as _ <-. split; [assumption | apply extends_refl; assumption].
Qed.

(** *** The helpers, given that the recursive calls preserve *)

Variable fuel : nat.
Variable Eval_rec : parser.Node -> ptr -> M Object.
Hypothesis Eval_rec_preserves : forall node env, preserves env (Eval_rec node env).

Lemma preserves_evalExpr (e : parser.Expression) (env : ptr) :
  preserves env (evaluator.evalExpr Eval_rec e env).
Proof. apply Eval_rec_preserves. Qed.

Lemma preserves_evalStmt (s : parser.Statement) (env : ptr) :
  preserves env (evaluator.evalStmt Eval_rec s env).
Proof. apply Eval_rec_preserves. Qed.

Lemma preserves_evalBlock (b : parser.BlockStatement) (env : ptr) :
  preserves env (evaluator.evalBlock Eval_rec b env).
Proof. apply Eval_rec_preserves. Qed.

Lemma preserves_evalProgram_loop (stmts : list parser.Statement) (env : ptr)
    (result : Object) :
  preserves env (evaluator.evalProgram_loop Eval_rec stmts env result).
Proof.
  revert result. induction stmts as [| s stmts IH]; intros result;
    cbn [evaluator.evalProgram_loop].
  - apply preserves_ret.
  - apply preserves_bind; [apply preserves_evalStmt |].
    intros r. destruct r; try apply IH; apply preserves_ret.
Qed.

Lemma preserves_evalBlockStatement_loop (stmts : list parser.Statement) (env : ptr)
    (result : Object) :
  preserves env (evaluator.evalBlockStatement_loop Eval_rec stmts env result).
Proof.
  revert result. induction stmts as [| s stmts IH]; intros result;
    cbn [evaluator.evalBlockStatement_loop].
  - apply preserves_ret.
  - apply preserves_bind; [apply preserves_evalStmt |].
    intros r. destruct r; try apply IH; apply preserves_ret.
Qed.

Lemma preserves_evalIfExpression (c : parser.Expression) (consequence : parser.BlockStatement)
    (alternative : option parser.BlockStatement) (env : ptr) :
  preserves env (evaluator.evalIfExpression Eval_rec c consequence alternative env).
Proof.
  unfold evaluator.evalIfExpression.
  apply preserves_checked; [apply preserves_evalExpr |]. intros x.
  apply preserves_bind; [apply preserves_lift |]. intros b.
  destruct b; [apply preserves_evalBlock |].
  destruct alternative; [apply preserves_evalBlock | apply preserves_ret].
Qed.

Lemma preserves_evalWhileExpression_loop (n : nat) (c : parser.Expression)
    (body : parser.BlockStatement) (env : ptr) (result : Object) :
  preserves env (evaluator.evalWhileExpression_loop Eval_rec n c body env result).
Proof.
  revert result. induction n as [| n IH]; intros result;
    cbn [evaluator.evalWhileExpression_loop].
  - apply preserves_lift.
  - apply preserves_checked; [apply preserves_evalExpr |]. intros x.
    apply preserves_bind; [apply preserves_lift |]. intros b.
    destruct (negb b); [apply preserves_ret |].
    apply preserves_checked; [apply preserves_evalBlock |]. intros r.
    destruct (evaluator.isReturnValue r); [apply preserves_ret | apply IH].
Qed.

Lemma preserves_evalForExpression_loop (n : nat) (c : parser.Expression)
    (update : parser.Statement) (body : parser.BlockStatement) (env : ptr)
    (result : Object) :
  preserves env (evaluator.evalForExpression_loop Eval_rec n c update body env result).
Proof.
  revert result. induction n as [| n IH]; intros result;
    cbn [evaluator.evalForExpression_loop].
  - apply preserves_lift.
  - assert (Hiter : preserves env
              (evaluator.checked (evaluator.evalBlock Eval_rec body env)
                 (fun result0 =>
                    if evaluator.isReturnValue result0 then ret result0
                    else match update with
                         | parser.NilStatement =>
                             evaluator.evalForExpression_loop Eval_rec n c update body env
                               result0
                         | _ =>
                             evaluator.checked (evaluator.evalStmt Eval_rec update env)
                               (fun _ =>
                                  evaluator.evalForExpression_loop Eval_rec n c update body
                                    env result0)
                         end))).
    { apply preserves_checked; [apply preserves_evalBlock |]. intros r.
      destruct (evaluator.isReturnValue r); [apply preserves_ret |].
      destruct update; try apply IH;
        (apply preserves_checked; [apply preserves_evalStmt | intros _; apply IH]). }
    destruct c; try exact Hiter;
      (apply preserves_checked; [apply preserves_evalExpr |]; intros x;
       apply preserves_bind; [apply preserves_lift |]; intros b;
       destruct (negb b); [apply preserves_ret | exact Hiter]).
Qed.

Lemma preserves_evalForExpression (init : parser.Statement) (c : parser.Expression)
    (update : parser.Statement) (body : parser.BlockStatement) (env : ptr) :
  preserves env (evaluator.evalForExpression fuel Eval_rec init c update body env).
Proof.
  unfold evaluator.evalForExpression.
  apply preserves_allocatesEnv; [apply allocatesEnv_NewEnclosedEnvironment |].
  intros e. destruct init; try apply preserves_evalForExpression_loop;
    (apply preserves_checked; [apply preserves_evalStmt |]; intros _;
     apply preserves_evalForExpression_loop).
Qed.

Lemma preserves_evalExpressions_loop (exps : list parser.Expression) (env : ptr)
    (result : list Object) :
  preserves env (evaluator.evalExpressions_loop Eval_rec exps env result).
Proof.
  revert result. induction exps as [| e exps IH]; intros result;
    cbn [evaluator.evalExpressions_loop].
  - apply preserves_ret.
  - apply preserves_bind; [apply preserves_evalExpr |]. intros x.
    destruct (evaluator.isError x); [apply preserves_ret | apply IH].
Qed.

Lemma preserves_applyFunction (env : ptr) (fn : Object) (args : list Object) :
  preserves env (evaluator.applyFunction Eval_rec fn args).
Proof.
  destruct fn; cbn [evaluator.applyFunction];
    try (apply preserves_bind; [apply preserves_lift | intros t; apply preserves_ret]).
  - apply preserves_allocatesEnv; [apply allocatesEnv_extendFunctionEnv |].
    intros e. apply preserves_bind; [apply preserves_evalBlock |].
    intros r. apply preserves_ret.
  - apply preserves_callBuiltin.
Qed.

Lemma preserves_evalHashLiteral_loop (nodes : list (parser.Expression * parser.Expression))
    (env : ptr) (pairs : list (HashKey * (Object * Object))) :
  preserves env (evaluator.evalHashLiteral_loop Eval_rec nodes env pairs).
Proof.
  revert pairs. induction nodes as [| [k v] nodes IH]; intros pairs;
    cbn [evaluator.evalHashLiteral_loop].
  - apply preserves_bind; [apply preserves_alloc | intros p; apply preserves_ret].
  - apply preserves_checked; [apply preserves_evalExpr |]. intros key.
    destruct (HashKey_of key).
    + apply preserves_checked; [apply preserves_evalExpr |]. intros value. apply IH.
    + apply preserves_bind; [apply preserves_lift | intros t; apply preserves_ret].
Qed.

Lemma preserves_evalClassLiteral_methods (e : ptr) (c : ptr)
    (methods : list parser.FunctionLiteral) (env : ptr) :
  preserves e (evaluator.evalClassLiteral_methods c methods env).
Proof.
  induction methods as [| [tok params body name] methods IH];
    cbn [evaluator.evalClassLiteral_methods].
  - apply preserves_ret.
  - apply preserves_bind;
      [apply preserves_of_allocatesEnv, allocatesEnv_NewEnclosedEnvironment |].
    intros methodEnv. apply preserves_bind; [apply preserves_alloc |]. intros p.
    apply preserves_bind; [| intros _; exact IH].
    apply preserves_modify. unfold evaluator.updateClass. apply touchesOnly_set_classes.
Qed.

Lemma preserves_evalClassLiteral_properties (c : ptr)
    (props : list (option parser.LetStatement)) (env : ptr) (k : M Object) :
  preserves env k ->
  preserves env (evaluator.evalClassLiteral_properties Eval_rec c props env k).
Proof.
  intros Hk. induction props as [| [[tok name value] |] props IH];
    cbn [evaluator.evalClassLiteral_properties].
  - exact Hk.
  - apply preserves_checked; [apply preserves_evalExpr |]. intros propValue.
    apply preserves_bind; [| intros _; exact IH].
    apply preserves_modify. unfold evaluator.updateClass. apply touchesOnly_set_classes.
  - apply preserves_lift.
Qed.

Lemma preserves_evalClassLiteral (name : parser.Identifier)
    (props : list (option parser.LetStatement)) (methods : list parser.FunctionLiteral)
    (env : ptr) :
  preserves env (evaluator.evalClassLiteral Eval_rec name props methods env).
Proof.
  unfold evaluator.evalClassLiteral.
  apply preserves_bind; [apply preserves_alloc |]. intros c.
  apply preserves_bind; [apply preserves_modify, touchesOnly_set_classes |]. intros _.
  apply preserves_evalClassLiteral_properties.
  apply preserves_bind; [apply preserves_evalClassLiteral_methods |]. intros _.
  apply preserves_bind; [apply preserves_modify, touchesOnly_Set |]. intros _.
  apply preserves_ret.
Qed.

Lemma preserves_callConstructor (i : ptr) (ctor : Function)
    (arguments : list parser.Expression) (env : ptr) :
  preserves env (evaluator.callConstructor Eval_rec i ctor arguments env).
Proof.
  unfold evaluator.callConstructor.
  apply preserves_bind; [apply preserves_evalExpressions_loop |]. intros args.
  destruct (evaluator.soleError args); [apply preserves_ret |].
  apply preserves_allocatesEnv; [apply allocatesEnv_newConstructorEnv |].
  intros e. apply preserves_bind; [apply preserves_evalBlock |].
  intros _. apply preserves_ret.
Qed.

Lemma preserves_evalNewExpression (class : parser.Expression)
    (arguments : list parser.Expression) (env : ptr) :
  preserves env (evaluator.evalNewExpression Eval_rec class arguments env).
Proof.
  unfold evaluator.evalNewExpression.
  apply preserves_checked; [apply preserves_evalExpr |]. intros classObj.
  destruct classObj;
    try (apply preserves_bind; [apply preserves_lift | intros t; apply preserves_ret]).
  intros st st' a Hwf Henv H.
  destruct (classes st !! p) as [cl |]; [| discriminate].
  revert st st' a Hwf Henv H.
  apply preserves_bind; [apply preserves_newInstance |]. intros i.
  destruct (Methods cl !! "crear");
    [apply preserves_callConstructor | apply preserves_ret].
Qed.

Lemma preserves_Eval_body (node : parser.Node) (env : ptr) :
  preserves env (evaluator.Eval_body fuel Eval_rec node env).
Proof.
  destruct node as [program | s | e]; cbn [evaluator.Eval_body].
  - apply preserves_evalProgram_loop.
  - destruct s as [| tok e | [tok name value] | | tok value | [tok stmts]].
    + apply preserves_ret.
    + apply preserves_evalExpr.
    + apply preserves_checked; [apply preserves_evalExpr |]. intros val.
      apply preserves_bind; [apply preserves_modify, touchesOnly_Set |].
      intros _. apply preserves_ret.
    + apply preserves_lift.
    + apply preserves_checked; [apply preserves_evalExpr |]. intros val.
      apply preserves_bind; [apply preserves_alloc | intros p; apply preserves_ret].
    + apply preserves_evalBlockStatement_loop.
  - destruct e as [| [tok name] | | | | | | | | | | | [tok params body name] | | | | | tok o [ptok property] | |];
      try apply preserves_ret.
    + apply preserves_evalIdentifier.
    + apply preserves_checked; [apply preserves_evalExpr |]. intros x.
      apply preserves_lift.
    + apply preserves_checked; [apply preserves_evalExpr |]. intros x.
      apply preserves_checked; [apply preserves_evalExpr |]. intros y.
      apply preserves_lift.
    + apply preserves_evalIfExpression.
    + apply preserves_evalWhileExpression_loop.
    + apply preserves_evalForExpression.
    + apply preserves_bind; [apply preserves_alloc | intros p; apply preserves_ret].
    + apply preserves_checked; [apply preserves_evalExpr |]. intros fn.
      apply preserves_bind; [apply preserves_evalExpressions_loop |]. intros args.
      destruct (evaluator.soleError args);
        [apply preserves_ret | apply preserves_applyFunction].
    + apply preserves_checked; [apply preserves_evalExpr |]. intros x.
      apply preserves_checked; [apply preserves_evalExpr |]. intros y.
      apply preserves_lift.
    + apply preserves_bind; [apply preserves_evalExpressions_loop |]. intros elements.
      destruct (evaluator.soleError elements); [apply preserves_ret |].
      apply preserves_bind; [apply preserves_alloc | intros p; apply preserves_ret].
    + apply preserves_evalHashLiteral_loop.
    + apply preserves_checked; [apply preserves_evalExpr |]. intros x.
      apply preserves_evalDotExpression.
    + apply preserves_evalClassLiteral.
    + apply preserves_evalNewExpression.
Qed.

End Invariant.

(** Evaluation keeps every instance's [esto], and changes no environment
    that existed before it other than the one it runs in. *)
Lemma preserves_Eval (fuel : nat) (node : parser.Node) (env : ptr) :
  scope.preserves env (evaluator.Eval_ fuel node env).
Proof.
  revert node env. induction fuel as [| fuel IH]; intros node env.
  - apply preserves_lift.
  - rewrite Eval_S. apply preserves_Eval_body. exact IH.
Qed.

Section Receiver.
Import scope.

(** A call runs in an environment of its own: whatever the body does, no
    environment and no instance that existed before the call has changed
    when it returns. *)
Lemma allocatesEnv_frame {A : Type} (m : M ptr) (k : ptr -> M A) (st st' : State) (a : A) :
  allocatesEnv m -> (forall e, preserves e (k e)) ->
  wellFormed st -> bind m k st = Val (a, st') ->
  wellFormed st'
  /\ (forall e : ptr, e < next st -> envs st' !! e = envs st !! e)
  /\ (forall i : ptr, i < next st -> instances st' !! i = instances st !! i).
Proof.
  intros Hm Hk Hwf H. unfold bind in H.
  destruct (m st) as [[e st1] |] eqn:E; [| discriminate].
  destruct (Hm st st1 e E) as (-> & Hn & Hi & He).
  assert (Hwf1 : wellFormed st1).
  { intros i inst Hinst. rewrite Hi in Hinst.
    destruct (Hwf i inst Hinst) as (H1 & H2 & E' & HE & Hesto).
    rewrite Hn. repeat split; try lia.
    exists E'. split; [| assumption]. rewrite He; [assumption | lia]. }
  assert (Henv1 : evaluationEnv (next st) st1).
  { split; [lia |]. intros i inst Hinst. rewrite Hi in Hinst.
    destruct (Hwf i inst Hinst) as (_ & H2 & _). lia. }
  destruct (Hk (next st) st1 st' a Hwf1 Henv1 H) as [Hwf2 (Hn2 & He2 & Hi2 & _)].
  split; [assumption |]. split.
  - intros e Hlt. rewrite He2 by lia. apply He. lia.
  - intros i Hlt. rewrite Hi2 by lia. rewrite Hi. reflexivity.
Qed.

Lemma applyFunction_frame (fuel : nat) (fn : Function) (args : list Object)
    (st st' : State) (r : Object) :
  wellFormed st ->
  run.applyFunction fuel (FunctionObj fn) args st = Val (r, st') ->
  wellFormed st' /\ forall e : ptr, e < next st -> envs st' !! e = envs st !! e.
Proof.
  intros Hwf H.
  destruct (allocatesEnv_frame (evaluator.extendFunctionEnv fn args)
              (fun e => bind (evaluator.evalBlock (run.Eval_ fuel) (Body fn) e)
                             (fun evaluated => ret (evaluator.unwrapReturnValue evaluated)))
              st st' r) as (H1 & H2 & _).
  - apply allocatesEnv_extendFunctionEnv.
  - intros e. apply preserves_bind; [apply (preserves_Eval fuel) |].
    intros x. apply preserves_ret.
  - exact Hwf.
  - exact H.
  - split; assumption.
Qed.

(** *** The bound method *)

Lemma evalDotExpression_method (st : State) (i : ptr) (inst : Instance) (cl : Class)
    (m : string) (method : Function) :
  instances st !! i = Some inst ->
  Properties inst !! m = None ->
  classes st !! Instance_Class inst = Some cl ->
  Methods cl !! m = Some method ->
  evaluator.evalDotExpression (InstancePtr i) m st
  = Val (FunctionObj (mkFunction (next st) (Parameters method) (Body method)
                                 (S (next st)) (Name method)),
         mkState (<[S (next st) := mkEnvironment {["esto" := InstancePtr i]}
                                                 (Some (Instance_Env inst))]> (envs st))
                 (classes st) (instances st) (S (S (next st))) (output st)).
Proof.
  intros Hi Hp Hc Hm. cbn [evaluator.evalDotExpression]. rewrite Hi, Hp, Hc, Hm.
  unfold evaluator.bindMethod, bind, step, modify, ret. cbn.
  unfold Set_, set_envs. cbn. rewrite alter_insert_eq. cbn. rewrite insert_empty.
  reflexivity.
Qed.

(** Binding parameters leaves a name that is not a parameter as it was. *)
Lemma bindParameters_other (params : list parser.Identifier) (args : list Object)
    (e : ptr) (name : string) (st : State) (E : Environment) :
  name ∉ map parser.Identifier_Value params ->
  envs st !! e = Some E ->
  exists E' : Environment,
    envs (evaluator.bindParameters params args e st) !! e = Some E'
    /\ outer E' = outer E
    /\ store E' !! name = store E !! name.
Proof.
  revert args st E. induction params as [| param params IH]; intros args st E Hnot HE.
  - exists E. auto.
  - cbn [map] in Hnot. apply not_elem_of_cons in Hnot as [Hne Hnot].
    assert (Hstep : forall val,
               exists E1, envs (Set_ e (parser.Identifier_Value param) val st) !! e = Some E1
                          /\ outer E1 = outer E /\ store E1 !! name = store E !! name).
    { intros val. eexists. cbn. rewrite lookup_alter_eq, HE. cbn.
      split; [reflexivity |]. split; [reflexivity |].
      cbn. apply lookup_insert_ne. congruence. }
    destruct args as [| arg args]; cbn [evaluator.bindParameters].
    + destruct (Hstep evaluator.NULL) as (E1 & H1 & H2 & H3).
      destruct (IH [] _ E1 Hnot H1) as (E' & G1 & G2 & G3).
      exists E'. repeat split; congruence.
    + destruct (Hstep arg) as (E1 & H1 & H2 & H3).
      destruct (IH args _ E1 Hnot H1) as (E' & G1 & G2 & G3).
      exists E'. repeat split; congruence.
Qed.

(** At the entry of a call of the bound method, [esto] resolves to the
    instance, unless a parameter has that name. *)
Lemma bound_method_resolves_esto (fn : Function) (args : list Object) (st : State)
    (i : ptr) (o : option ptr) :
  "esto" ∉ parameterNames fn ->
  Env fn < next st ->
  envs st !! Env fn = Some (mkEnvironment {["esto" := InstancePtr i]} o) ->
  exists (callEnv : ptr) (st' : State),
    evaluator.extendFunctionEnv fn args st = Val (callEnv, st')
    /\ Get callEnv "esto" st' = Some (InstancePtr i).
Proof.
  intros Hnot Hlt Henv.
  exists (next st),
    (evaluator.bindParameters (Parameters fn) args (next st)
       (snd (NewEnclosedEnvironment (Env fn) st))).
  split; [reflexivity |].
  destruct (bindParameters_other (Parameters fn) args (next st) "esto"
              (snd (NewEnclosedEnvironment (Env fn) st))
              (mkEnvironment ∅ (Some (Env fn))) Hnot) as (E' & H1 & H2 & H3).
  { cbn. apply lookup_insert_eq. }
  destruct (touchesOnly_bindParameters (Parameters fn) args (next st)
              (snd (NewEnclosedEnvironment (Env fn) st))) as (_ & _ & Hother).
  unfold Get. cbn [Get_walk]. rewrite H1, H3. cbn [store outer] in *.
  rewrite lookup_empty, H2.
  destruct (next st) as [| n] eqn:En; [lia |]. cbn [Get_walk].
  rewrite Hother by lia. cbn. rewrite lookup_insert_ne by lia.
  rewrite Henv. cbn. rewrite lookup_singleton_eq. reflexivity.
Qed.

(** *** Construction *)

Lemma evalNewExpression_esto (fuel : nat) (C : parser.Expression)
    (args : list parser.Expression) (env : ptr) (st st' : State) (i : ptr) :
  wellFormed st -> evaluationEnv env st ->
  run.evalNewExpression fuel C args env st = Val (InstancePtr i, st') ->
  exists inst : Instance, instances st' !! i = Some inst /\ estoBound st' i inst.
Proof.
  intros Hwf Henv H.
  assert (Hwf' : wellFormed st').
  { eapply (preserves_evalNewExpression (run.Eval_ fuel) (preserves_Eval fuel));
      eassumption. }
  enough (exists inst, instances st' !! i = Some inst) as [inst Hinst].
  { exists inst. split; [assumption |]. apply (Hwf' i inst Hinst). }
  revert H. unfold run.evalNewExpression, evaluator.evalNewExpression,
              evaluator.evalExpr, evaluator.checked, bind.
  destruct (run.Eval_ fuel (parser.NodeExpression C) env st) as [[v st1] | f] eqn:HC;
    [| discriminate].
  destruct (preserves_Eval fuel _ env st st1 v Hwf Henv HC) as [Hwf1 Hext1].
  pose proof (evaluationEnv_extends _ _ _ Henv Hext1) as Henv1.
  destruct (evaluator.isError v) eqn:Ev.
  { intros [= -> _]. discriminate Ev. }
  destruct v as [| n | x | q b | q | q w | msg | fn | s | q fn | q es | q ps | p | q];
    try discriminate Ev; try (cbn; discriminate).
  destruct (classes st1 !! p) as [cl |] eqn:Hcl; [| discriminate].
  rewrite newInstance_result.
  set (st2 := mkState _ _ _ _ _).
  assert (Hi2 : exists inst, instances st2 !! S (next st1) = Some inst).
  { eexists. subst st2. cbn. apply lookup_insert_eq. }
  destruct (preserves_newInstance env p cl env st1 st2 (S (next st1)) Hwf1 Henv1
              (newInstance_result p cl env st1)) as [Hwf2 Hext2].
  pose proof (evaluationEnv_extends _ _ _ Henv1 Hext2) as Henv2.
  destruct (Methods cl !! "crear") as [ctor |].
  - intros H.
    assert (Hi' : i = S (next st1)).
    { revert H. unfold evaluator.callConstructor, bind.
      destruct (evaluator.evalExpressions _ args env st2) as [[vals st3] |];
        [| discriminate].
      destruct (evaluator.soleError vals) as [err |] eqn:Hsole.
      - intros [= -> _]. apply soleError_Some in Hsole as [_ Hsole]. discriminate Hsole.
      - destruct (evaluator.newConstructorEnv (S (next st1)) ctor vals st3)
          as [[cenv st4] |]; [| discriminate].
        destruct (evaluator.evalBlock _ (Body ctor) cenv st4) as [[r st5] |];
          [| discriminate].
        intros [= <- _]. reflexivity. }
    subst i.
    destruct (preserves_callConstructor (run.Eval_ fuel) (preserves_Eval fuel)
                (S (next st1)) ctor args env st2 st' _ Hwf2 Henv2 H)
      as [_ (_ & _ & Hsame & _)].
    destruct Hi2 as [inst Hinst]. exists inst. rewrite Hsame; [assumption |].
    subst st2. cbn. lia.
  - intros [= <- <-]. exact Hi2.
Qed.

Lemma wellFormed_start : wellFormed main.start.
Proof. intros i inst H. cbn in H. rewrite lookup_empty in H. discriminate H. Qed.

Lemma wellFormed_globalState : wellFormed run.globalState /\ evaluationEnv 8 run.globalState.
Proof.
  split.
  - intros i inst H. cbn in H. rewrite lookup_empty in H. discriminate H.
  - split; [cbn; lia |]. intros i inst H. cbn in H. rewrite lookup_empty in H.
    discriminate H.
Qed.

End Receiver.

(** The state after [plainMethod] is well formed: it was reached by
    evaluation from the initial state. *)
Lemma wellFormed_after_plainMethod : scope.wellFormed (run.stateAfter run.plainMethod).
Proof.
  apply (proj1 (preserves_Eval 10 (parser.NodeProgram (run.programOf run.plainMethod)) 8
                  run.globalState (run.stateAfter run.plainMethod) (InstancePtr 13)
                  (proj1 wellFormed_globalState) (proj2 wellFormed_globalState)
                  ltac:(vm_compute; reflexivity))).
Qed.

(** C4, as stated, fails. In the state after [shadowedMethod], [m] is a
    method of the class of the instance, yet [c.m] is the property of that
    name, the Integer 1, not a bound Function; and in the state after
    [estoParameter] the call environment of the bound method [m] resolves
    [esto] to the argument, not to the instance. *)
Lemma method_lookup_can_be_shadowed :
  (exists (inst : Instance) (cl : Class) (method : Function),
      instances (run.stateAfter run.shadowedMethod) !! 13 = Some inst
      /\ classes (run.stateAfter run.shadowedMethod) !! Instance_Class inst = Some cl
      /\ Methods cl !! "m" = Some method
      /\ evaluator.evalDotExpression (InstancePtr 13) "m" (run.stateAfter run.shadowedMethod)
         = Val (Integer 1, run.stateAfter run.shadowedMethod))
  /\ (exists (bound : Function) (st st' : State) (callEnv : ptr),
         evaluator.evalDotExpression (InstancePtr 13) "m" (run.stateAfter run.estoParameter)
         = Val (FunctionObj bound, st)
         /\ evaluator.extendFunctionEnv bound [Integer 5] st = Val (callEnv, st')
         /\ Get callEnv "esto" st' = Some (Integer 5)).
Proof.
  split.
  - eexists _, _, _.
    split; [vm_compute; reflexivity |]. split; [vm_compute; reflexivity |].
    split; vm_compute; reflexivity.
  - eexists _, _, _, _.
    split; [vm_compute; reflexivity |]. split; vm_compute; reflexivity.
Qed.

(** C4, amended. Every instance's own environment binds [esto] to the
    instance: the binding is there when [nuevo] returns the instance, and
    evaluation keeps it.  For every method [m] of the instance's class that
    no own property of the instance shadows, [obj.m] is a bound Function
    with the method's parameters, body and name, whose environment is a new
    scope that encloses the instance's environment and binds [esto] to the
    instance; at the entry of a call of it [esto] resolves to the instance
    unless a parameter is named [esto]; and when the call returns, no
    environment that existed before the call has changed, so the call has
    made [esto] visible nowhere. *)
Theorem esto_refers_to_the_receiver :
  scope.wellFormed main.start
  /\ (forall (fuel : nat) (node : parser.Node) (env : ptr) (st st' : State) (v : Object),
         scope.wellFormed st -> scope.evaluationEnv env st ->
         run.Eval_ fuel node env st = Val (v, st') ->
         scope.wellFormed st' /\ scope.evaluationEnv env st')
  /\ (forall (fuel : nat) (C : parser.Expression) (args : list parser.Expression)
             (env : ptr) (st st' : State) (i : ptr),
         scope.wellFormed st -> scope.evaluationEnv env st ->
         run.evalNewExpression fuel C args env st = Val (InstancePtr i, st') ->
         exists inst : Instance,
           instances st' !! i = Some inst /\ scope.estoBound st' i inst)
  /\ (forall (st : State) (i : ptr) (inst : Instance) (cl : Class) (m : string)
             (method : Function),
         scope.wellFormed st ->
         instances st !! i = Some inst ->
         Properties inst !! m = None ->
         classes st !! Instance_Class inst = Some cl ->
         Methods cl !! m = Some method ->
         exists (p e : ptr) (st1 : State),
           let bound := mkFunction p (Parameters method) (Body method) e (Name method) in
           evaluator.evalDotExpression (InstancePtr i) m st = Val (FunctionObj bound, st1)
           /\ next st <= e
           /\ envs st1 !! e
              = Some (mkEnvironment {["esto" := InstancePtr i]} (Some (Instance_Env inst)))
           /\ (forall args : list Object,
                  "esto" ∉ scope.parameterNames method ->
                  exists (callEnv : ptr) (st2 : State),
                    evaluator.extendFunctionEnv bound args st1 = Val (callEnv, st2)
                    /\ Get callEnv "esto" st2 = Some (InstancePtr i))
           /\ (forall (fuel : nat) (args : list Object) (r : Object) (st2 : State),
                  run.applyFunction fuel (FunctionObj bound) args st1 = Val (r, st2) ->
                  scope.wellFormed st2
                  /\ forall e' : ptr, e' < next st1 -> envs st2 !! e' = envs st1 !! e')).
Proof.
  split; [exact wellFormed_start |]. split; [| split].
  - intros fuel node env st st' v Hwf Henv H.
    destruct (preserves_Eval fuel node env st st' v Hwf Henv H) as [Hwf' Hext].
    split; [assumption | eapply evaluationEnv_extends; eassumption].
  - apply evalNewExpression_esto.
  - intros st i inst cl m method Hwf Hi Hp Hc Hm.
    pose proof (evalDotExpression_method st i inst cl m method Hi Hp Hc Hm) as Hdot.
    set (st1 := mkState _ _ _ _ _) in Hdot.
    exists (next st), (S (next st)), st1. cbn zeta.
    assert (Hwf1 : scope.wellFormed st1).
    { intros j inst' Hj. subst st1. cbn in Hj. cbn [next].
      destruct (Hwf j inst' Hj) as (H1 & H2 & E & HE & Hesto).
      repeat split; try lia. exists E. cbn. rewrite lookup_insert_ne by lia.
      split; assumption. }
    split; [exact Hdot |]. split; [lia |]. split.
    { subst st1. cbn. apply lookup_insert_eq. }
    split.
    + intros args Hnot.
      apply (bound_method_resolves_esto _ args st1 i (Some (Instance_Env inst))).
      * exact Hnot.
      * subst st1. cbn. lia.
      * subst st1. cbn. apply lookup_insert_eq.
    + intros fuel args r st2 H. eapply applyFunction_frame; eassumption.
Qed.

Lemma esto_refers_to_the_receiver_witness :
  exists (p e : ptr) (st1 : State) (method : Function),
    evaluator.evalDotExpression (InstancePtr 13) "m" (run.stateAfter run.plainMethod)
    = Val (FunctionObj (mkFunction p (Parameters method) (Body method) e (Name method)), st1)
    /\ (exists (callEnv : ptr) (st2 : State),
           evaluator.extendFunctionEnv
             (mkFunction p (Parameters method) (Body method) e (Name method))
             [Integer 5] st1 = Val (callEnv, st2)
           /\ Get callEnv "esto" st2 = Some (InstancePtr 13)).
Proof.
  pose proof (proj2 (proj2 (proj2 esto_refers_to_the_receiver))
                (run.stateAfter run.plainMethod) 13) as H.
  edestruct H as (p & e & st1 & Hdot & _ & _ & Hcall & _).
  - exact wellFormed_after_plainMethod.
  - vm_compute. reflexivity.
  - vm_compute. reflexivity.
  - vm_compute. reflexivity.
  - instantiate (2 := "m"). vm_compute. reflexivity.
  - exists p, e, st1. eexists. split; [exact Hdot |].
    apply (Hcall [Integer 5]).
    vm_compute. intros Hin. apply list_elem_of_singleton in Hin. discriminate Hin.
Defined.
